(** * AsyncPreserver: a resend buffer in front of an asynchronous input

    A shallow embedding of [internal/component/input/async_preserver.go].
    The Go methods are translated function by function.  Everything they
    mutate (the [AsyncPreserver] struct, the wrapped source and the
    original acknowledgement functions, the cancellation state of the
    contexts, the allocator) is threaded through a state monad; the three
    places where [ReadBatch] blocks split it into resumable pieces, so
    that acknowledgements running on other goroutines can be interleaved
    with a read in progress. *)

From Stdlib Require Import ZArith List Bool Lia Lqa String QArith Qround.
Import ListNotations.
Open Scope Z_scope.

(** ** Machine integers and durations *)

(** Go's [int] and [int64] are 64-bit two's complement; [atomic.AddInt64]
    and [++] wrap around. *)
Definition min_int64 : Z := - 2 ^ 63.
Definition max_int64 : Z := 2 ^ 63 - 1.
Definition wrap64 (z : Z) : Z := (z + 2 ^ 63) mod 2 ^ 64 - 2 ^ 63.

(** [time.Duration] counts nanoseconds. *)
Definition Duration := Z.
Definition Millisecond : Duration := 1000000.
Definition Second : Duration := 1000000000.

(** ** Messages *)

(** A tag left on a part by a sort group: the group that issued it and the
    position the part had in that group's batch. *)
Definition Tag : Type := nat * Z.

(** [*message.Part].  The body of a part is held by reference: [dataRef] is
    the address of the content, [tags] the tracking tags carried in the
    part's context, most recent first. *)
Record Part := mkPart { dataRef : nat; tags : list Tag }.

(** [message.Batch] is a slice of parts. *)
Definition Batch := list Part.

Definition Len (m : Batch) : Z := Z.of_nat (List.length m).

(** [message.QuickBatch(nil)]: the empty batch. *)
Definition QuickBatch_nil : Batch := [].

(** [m.Get(i)]: the part at position [i].  Package [message] is not among
    the sources; the part returned for a position outside the batch is a
    placeholder, and the theorems below only speak of positions inside. *)
Definition Get (m : Batch) (i : Z) : Part :=
  nth (Z.to_nat i) m (mkPart 0 []).

(** Modelled from the spec: [message.Batch.ShallowCopy] is not among the
    sources.  "Copies made for delivery are shallow (structural copy of
    the sequence container; part contents are shared, not duplicated)":
    a new slice of new part headers, each with the content reference of
    the part it copies. *)
Definition ShallowCopy (m : Batch) : Batch :=
  map (fun p => mkPart (dataRef p) (tags p)) m.


(** ** The tracking facility *)

(** Modelled from the spec: [message.NewSortGroup] and [SortGroup.GetIndex]
    are not among the sources.  "Given a batch, returns a batch of taggable
    copies plus a function locate(part) -> original-index | not-found."
    A group is identified by its address; the copies carry a tag with that
    address and their position. *)
Definition SortGroup := nat.

Fixpoint tagFrom (g : SortGroup) (i : Z) (m : Batch) : Batch :=
  match m with
  | [] => []
  | p :: rest => mkPart (dataRef p) ((g, i) :: tags p) :: tagFrom g (i + 1) rest
  end.

Definition NewSortGroup (g : SortGroup) (m : Batch) : SortGroup * Batch :=
  (g, tagFrom g 0 m).

(** [sortGroup.GetIndex(p)]: the position recorded for [p] by this group,
    [-1] when the part carries no tag of the group. *)
Fixpoint findTag (g : SortGroup) (ts : list Tag) : Z :=
  match ts with
  | [] => -1
  | (g', i) :: rest => if Nat.eqb g' g then i else findTag g rest
  end.

Definition GetIndex (g : SortGroup) (p : Part) : Z := findTag g (tags p).

(** ** Errors *)

(** Go [error] values: the sentinels the decorator tests for or returns,
    other errors, errors wrapping a cause, and the structured batch error
    ([batch.WalkableError]): [IndexedErrors()] and the sequence that
    [WalkParts] visits, each part with its own error or nil. *)
#[local] Set Warnings "-register-all".
Inductive error : Type :=
| ErrTypeClosed
| ErrTimeout
| Canceled
| DeadlineExceeded
| ErrOther (msg : string)
| ErrWrapped (msg : string) (cause : error)
| ErrWalkable (indexedErrors : Z) (walk : list (Part * option error)).

(** [errors.Is(err, component.ErrTypeClosed)]: the sentinel itself or an
    error whose chain of causes reaches it. *)
Fixpoint isTypeClosed (err : error) : bool :=
  match err with
  | ErrTypeClosed => true
  | ErrWrapped _ cause => isTypeClosed cause
  | _ => false
  end.

(** [errors.Is(err, component.ErrTypeClosed)] for a possibly nil [err]. *)
Definition errors_Is_ErrTypeClosed (err : option error) : bool :=
  match err with
  | Some e => isTypeClosed e
  | None => false
  end.

(** What a callee sees of a [context.Context]: [ctx.Err()], nil while the
    scope is live. *)
Definition Context := option error.

(** ** The backoff policy *)

(** Package [backoff] (github.com/cenkalti/backoff, v4) is not among the
    sources; this is its [ExponentialBackOff] as [newResendMsg] and
    [ReadBatch] use it.  What a policy takes from the process, the values
    of [rand.Float64()] and the time on its clock, comes from a [Chance]:
    [Float64 k] and [ElapsedTime k] are what call number [k] of
    [NextBackOff] on a policy sees.  The statements below hold for every
    [Chance]; none relates the draws of two policies.  The library
    computes in [float64]; here the same formulas are exact rationals. *)
Class Chance := mkChance {
  Float64 : nat -> Q;
  Float64_range : forall k, (0 <= Float64 k)%Q /\ (Float64 k < 1)%Q;
  ElapsedTime : nat -> Duration
}.

(** [currentInterval] is the unexported field the delays are drawn
    around; [calls] counts the delays handed out. *)
Record BackOff := mkBackOff {
  InitialInterval : Duration;
  RandomizationFactor : Q;
  Multiplier : Q;
  MaxInterval : Duration;
  MaxElapsedTime : Duration;
  currentInterval : Duration;
  calls : nat
}.

Definition Stop : Duration := -1.

(** [b.Reset()]: the current interval becomes the initial interval as it
    is at that moment. *)
Definition Reset (b : BackOff) : BackOff :=
  mkBackOff (InitialInterval b) (RandomizationFactor b) (Multiplier b)
            (MaxInterval b) (MaxElapsedTime b) (InitialInterval b) 0.

(** [backoff.NewExponentialBackOff()]: the defaults (500 ms, 0.5, 1.5,
    60 s, 15 min), then [Reset]. *)
Definition NewExponentialBackOff : BackOff :=
  Reset (mkBackOff (500 * Millisecond) (1 # 2) (3 # 2) (60 * Second)
                   (900 * Second) 0 0).

(** [time.Duration(x)] for a float [x]: the fraction is cut off. *)
Definition toDuration (x : Q) : Duration :=
  if Qle_bool 0 x then Qfloor x else Qceiling x.

Definition getRandomValueFromInterval (randomizationFactor random : Q)
    (current : Duration) : Duration :=
  if Qeq_bool randomizationFactor 0 then current
  else
    let delta := (randomizationFactor * inject_Z current)%Q in
    let minInterval := (inject_Z current - delta)%Q in
    let maxInterval := (inject_Z current + delta)%Q in
    toDuration (minInterval + random * (maxInterval - minInterval + 1))%Q.

Definition incrementCurrentInterval (b : BackOff) : BackOff :=
  let next :=
    if Qle_bool (inject_Z (MaxInterval b) / Multiplier b) (inject_Z (currentInterval b))
    then MaxInterval b
    else toDuration (inject_Z (currentInterval b) * Multiplier b) in
  mkBackOff (InitialInterval b) (RandomizationFactor b) (Multiplier b)
            (MaxInterval b) (MaxElapsedTime b) next (calls b).

Definition NextBackOff {chance : Chance} (b : BackOff) : Duration * BackOff :=
  let elapsed := ElapsedTime (calls b) in
  let next := getRandomValueFromInterval (RandomizationFactor b)
                                         (Float64 (calls b)) (currentInterval b) in
  let b1 := incrementCurrentInterval b in
  let b' := mkBackOff (InitialInterval b1) (RandomizationFactor b1) (Multiplier b1)
                      (MaxInterval b1) (MaxElapsedTime b1) (currentInterval b1)
                      (S (calls b1)) in
  if negb (MaxElapsedTime b =? 0) && (MaxElapsedTime b <? elapsed + next)
  then (Stop, b')
  else (next, b').

(** The policy after [k] delays have been drawn from [b], and the delay
    drawn next. *)
Fixpoint policyAfter {chance : Chance} (k : nat) (b : BackOff) : BackOff :=
  match k with
  | O => b
  | S j => snd (NextBackOff (policyAfter j b))
  end.

Definition nthDelay {chance : Chance} (k : nat) (b : BackOff) : Duration :=
  fst (NextBackOff (policyAfter k b)).

(** The policies an entry made by [newResendMsg] can carry: the
    parameters it ends up with and an interval between the one the
    constructor fixed and the ceiling. *)
Definition resendPolicy (b : BackOff) : Prop :=
  RandomizationFactor b = (1 # 2)%Q /\ Multiplier b = (11 # 10)%Q /\
  MaxInterval b = Second /\ MaxElapsedTime b = 0 /\
  500 * Millisecond <= currentInterval b <= Second.

(** A delay drawn around the interval [c]: between half of it and one and
    a half times it. *)
Definition jittered (c d : Duration) : Prop :=
  c <= 2 * d + 1 /\ 2 * d <= 3 * c + 1.

(** The delay before redelivery number [j], counted from zero. *)
Definition delayBefore {chance : Chance} (b : BackOff) (j : nat) : option Duration :=
  if (j <? 2)%nat then None else Some (nthDelay (j - 2) b).

(** ** The decorator's data *)

Section Preserver.

(** The world outside the decorator: the state of the wrapped source and of
    whatever its acknowledgement functions reach. *)
Context {W : Type} {chance : Chance}.

(** [AsyncAckFn]: [func(ctx, res error) error], acting on the world. *)
Definition AsyncAckFn := Context -> option error -> W -> W * option error.

(** The [Async] interface of the wrapped source. *)
Record Async := mkAsync {
  Async_Connect : Context -> W -> W * option error;
  Async_ReadBatch : Context -> W -> W * ((Batch * AsyncAckFn) + error);
  Async_Close : Context -> W -> W * option error
}.

(** [boff] is a pointer shared by the copies of an entry.  An entry is
    held by the queue or by the one callback that was handed out for it,
    never by both, so the policy travels with the entry here. *)
Record asyncPreserverResend := mkResend {
  boff : BackOff;
  attempts : Z;
  msg : Batch;
  ackFn : AsyncAckFn
}.

Definition newResendMsg (m : Batch) (f : AsyncAckFn) : asyncPreserverResend :=
  let b := NewExponentialBackOff in
  let b := mkBackOff Millisecond (RandomizationFactor b) (Multiplier b)
                     (MaxInterval b) (MaxElapsedTime b) (currentInterval b) (calls b) in
  let b := mkBackOff (InitialInterval b) (RandomizationFactor b) (Multiplier b)
                     Second (MaxElapsedTime b) (currentInterval b) (calls b) in
  let b := mkBackOff (InitialInterval b) (RandomizationFactor b) (11 # 10)
                     (MaxInterval b) (MaxElapsedTime b) (currentInterval b) (calls b) in
  let b := mkBackOff (InitialInterval b) (RandomizationFactor b) (Multiplier b)
                     (MaxInterval b) 0 (currentInterval b) (calls b) in
  mkResend b 0 m f.

(** [resendInterrupt] is either the no-op it starts as ([None]) or the
    cancel function of the context of some read, named by that context's
    identifier.  [msgsMut] is not a field here: the regions it guards are
    the atomic steps below. *)
Record AsyncPreserver := mkPreserver {
  resendMessages : list asyncPreserverResend;
  resendInterrupt : option nat;
  pendingMessages : Z;
  inputClosed : Z;
  r : Async
}.

Definition NewAsyncPreserver (src : Async) : AsyncPreserver :=
  mkPreserver [] None 0 0 src.

(** ** The state the methods act on *)

(** [done] records, for every derived context that has ended, the value of
    its [Err()]; [nextId] is the allocator for contexts and sort groups. *)
Record State := mkState {
  pres : AsyncPreserver;
  world : W;
  done : list (nat * error);
  nextId : nat
}.

Definition M (A : Type) : Type := State -> A * State.

Definition ret {A} (a : A) : M A := fun s => (a, s).

Definition bind {A B} (c : M A) (k : A -> M B) : M B :=
  fun s => let (a, s') := c s in k a s'.

Notation "x <- c ;; k" := (bind c (fun x => k))
  (at level 61, c at next level, right associativity).
Notation "c ;; k" := (bind c (fun _ => k))
  (at level 61, right associativity).

Definition getP : M AsyncPreserver := fun s => (pres s, s).

Definition putP (p : AsyncPreserver) : M unit :=
  fun s => (tt, mkState p (world s) (done s) (nextId s)).

(** A call into the source or into an original acknowledgement function. *)
Definition liftW {A} (f : W -> W * A) : M A :=
  fun s => let (w', a) := f (world s) in
           (a, mkState (pres s) w' (done s) (nextId s)).

Definition fresh : M nat :=
  fun s => (nextId s, mkState (pres s) (world s) (done s) (S (nextId s))).

Fixpoint lookupErr (n : nat) (l : list (nat * error)) : option error :=
  match l with
  | [] => None
  | (k, e) :: rest => if Nat.eqb k n then Some e else lookupErr n rest
  end.

(** [ctx.Err()] of the derived context [n]. *)
Definition ctxErr (n : nat) : M Context :=
  fun s => (lookupErr n (done s), s).

(** The context [n] ends with [e]; a context that has ended keeps the
    error it ended with. *)
Definition endCtx (n : nat) (e : error) : M unit :=
  fun s => match lookupErr n (done s) with
           | Some _ => (tt, s)
           | None => (tt, mkState (pres s) (world s) ((n, e) :: done s) (nextId s))
           end.

(** The cancel function returned by [context.WithCancel]. *)
Definition cancel (n : nat) : M unit := endCtx n Canceled.

(** [context.WithCancel(ctx)]: a new context, already ended when the
    parent is. *)
Definition WithCancel (parent : Context) : M nat :=
  n <- fresh ;;
  match parent with
  | Some e => endCtx n e ;; ret n
  | None => ret n
  end.

(** [p.resendInterrupt()]. *)
Definition callInterrupt (h : option nat) : M unit :=
  match h with
  | Some n => cancel n
  | None => ret tt
  end.

(** [atomic.AddInt64(&p.pendingMessages, d)]. *)
Definition addPending (d : Z) : M unit :=
  p <- getP ;;
  putP (mkPreserver (resendMessages p) (resendInterrupt p)
                    (wrap64 (pendingMessages p + d)) (inputClosed p) (r p)).

(** ** Connect and Close *)

Definition Connect (ctx : Context) : M (option error) :=
  p <- getP ;;
  err <- liftW (Async_Connect (r p) ctx) ;;
  p <- getP ;;
  if errors_Is_ErrTypeClosed err && (0 <? pendingMessages p) then
    putP (mkPreserver (resendMessages p) (resendInterrupt p)
                      (pendingMessages p) 1 (r p)) ;;
    ret None
  else ret err.

Definition Close (ctx : Context) : M (option error) :=
  p <- getP ;;
  liftW (Async_Close (r p) ctx).

(** ** The wrapped acknowledgement functions *)

(** Modelled from the spec: [WalkParts] belongs to package [batch], which is
    not among the sources.  "A traversal operation yielding, for each
    part, its index, a reference to it, and an associated error-or-none,
    with traversal short-circuitable": the visitor is run on the entries
    in order and the walk stops at the first one it answers [false] to. *)
Fixpoint WalkParts {A} (walk : list (Part * option error)) (i : Z)
    (fn : Z -> Part -> option error -> A -> A * bool) (acc : A) : A :=
  match walk with
  | [] => acc
  | (p, e) :: rest =>
      let (acc', continue) := fn i p e acc in
      if continue then WalkParts rest (i + 1) fn acc' else acc'
  end.

(** The parts a structured error reports as failed, in walk order. *)
Fixpoint erroredParts (walk : list (Part * option error)) : list Part :=
  match walk with
  | [] => []
  | (p, Some _) :: rest => p :: erroredParts rest
  | (_, None) :: rest => erroredParts rest
  end.

(** The visitor of [wrapBatchAckFn]; the accumulator is [resendMsg]. *)
Definition collectErrored (sortGroup : SortGroup) (m : asyncPreserverResend)
    (i : Z) (p : Part) (e : option error) (resendMsg : Batch) : Batch * bool :=
  match e with
  | None => (resendMsg, true)
  | Some _ =>
      let tagIndex := GetIndex sortGroup p in
      if 0 <=? tagIndex
      then (resendMsg ++ [Get (msg m) tagIndex], true)
      else (msg m, false)
  end.

(** The batch that a failed multi-part delivery puts back in the queue. *)
Definition resendBatch (sortGroup : SortGroup) (m : asyncPreserverResend)
    (res : error) : Batch :=
  match res with
  | ErrWalkable indexedErrors walk =>
      if indexedErrors <? Len (msg m) then
        let resendMsg := WalkParts walk 0 (collectErrored sortGroup m) QuickBatch_nil in
        if Len resendMsg =? 0 then msg m else resendMsg
      else msg m
  | _ => msg m
  end.


(** The closures returned by [wrapBatchAckFn] and [wrapSingleAckFn], with
    the variables they capture. *)
Inductive WrappedAck : Type :=
| BatchAck (sortGroup : SortGroup) (m : asyncPreserverResend)
| SingleAck (m : asyncPreserverResend).

(** The region guarded by [msgsMut] in both closures: append the entry and
    fire the interrupt. *)
Definition enqueue (m : asyncPreserverResend) : M unit :=
  p <- getP ;;
  putP (mkPreserver (resendMessages p ++ [m]) (resendInterrupt p)
                    (pendingMessages p) (inputClosed p) (r p)) ;;
  callInterrupt (resendInterrupt p).

Definition setMsg (m : asyncPreserverResend) (b : Batch) : asyncPreserverResend :=
  mkResend (boff m) (attempts m) b (ackFn m).

(** Calling a wrapped acknowledgement function.  The result is what the
    call returns and the closure as the call leaves it (the batch closure
    assigns to its captured [m.msg]). *)
Definition callAck (f : WrappedAck) (ctx : Context) (res : option error)
    : M (option error * WrappedAck) :=
  match f with
  | BatchAck sortGroup m =>
      match res with
      | Some e =>
          let m' := setMsg m (resendBatch sortGroup m e) in
          enqueue m' ;;
          ret (None, BatchAck sortGroup m')
      | None =>
          addPending (-1) ;;
          out <- liftW (ackFn m ctx res) ;;
          ret (out, f)
      end
  | SingleAck m =>
      match res with
      | Some e =>
          enqueue m ;;
          ret (None, f)
      | None =>
          addPending (-1) ;;
          out <- liftW (ackFn m ctx res) ;;
          ret (out, f)
      end
  end.

(** The entry a closure captured. *)
Definition entryOf (f : WrappedAck) : asyncPreserverResend :=
  match f with
  | BatchAck _ m => m
  | SingleAck m => m
  end.

Definition wrapBatchAckFn (m : asyncPreserverResend) : M (Batch * WrappedAck) :=
  g <- fresh ;;
  let (sortGroup, trackedMsg) := NewSortGroup g (msg m) in
  ret (trackedMsg, BatchAck sortGroup m).

Definition wrapSingleAckFn (m : asyncPreserverResend) : M (Batch * WrappedAck) :=
  ret (msg m, SingleAck m).

Definition wrapAckFn (m : asyncPreserverResend) : M (Batch * WrappedAck) :=
  if Len (msg m) =? 1 then wrapSingleAckFn m else wrapBatchAckFn m.

(** ** ReadBatch *)

(** What [ReadBatch] returns: a batch with its acknowledgement function,
    or an error. *)
Definition ReadOut : Type := (Batch * WrappedAck) + error.

(** The places where [ReadBatch] blocks, with the variables that are live
    there; [ctx] is the context the read derived on entry. *)
Inductive Blocked : Type :=
| InBackoff (ctx : nat) (resend : asyncPreserverResend) (tout : Duration)
| InSourceRead (ctx : nat)
| InDrain (ctx : nat).

(** The timer a blocked read waits on, if any. *)
Definition timerOf (b : Blocked) : option Duration :=
  match b with
  | InBackoff _ _ tout => Some tout
  | InSourceRead _ => None
  | InDrain _ => Some (Millisecond * 10)
  end.

(** [return] in [ReadBatch]: the deferred [cancel()] runs. *)
Definition finish (ctx : nat) (out : ReadOut) : M (ReadOut + Blocked) :=
  cancel ctx ;;
  ret (inl out).

(** Lines 166-167 and 204-205. *)
Definition deliver (ctx : nat) (m : asyncPreserverResend) : M (ReadOut + Blocked) :=
  wrapped <- wrapAckFn m ;;
  let (sendMsg, ackFn) := (wrapped : Batch * WrappedAck) in
  finish ctx (inl (ShallowCopy sendMsg, ackFn)).

(** Lines 182-205: what the read does with the outcome of the source, or
    with the closed error it makes up when [inputClosed] is set. *)
Definition afterSource (ctx : nat) (out : (Batch * AsyncAckFn) + error)
    : M (ReadOut + Blocked) :=
  match out with
  | inr err =>
      p <- getP ;;
      if isTypeClosed err && (0 <? pendingMessages p)
      then ret (inr (InDrain ctx))
      else finish ctx (inr err)
  | inl (m, aFn) =>
      addPending 1 ;;
      deliver ctx (newResendMsg m aFn)
  end.

(** Lines 139-181: entry of [ReadBatch] up to the first place it blocks or
    returns. *)
Definition ReadBatch (parent : Context) : M (ReadOut + Blocked) :=
  ctx <- WithCancel parent ;;
  p <- getP ;;
  match resendMessages p with
  | resend :: _ =>
      let lMsgs := Z.of_nat (List.length (resendMessages p)) in
      putP (mkPreserver (if 1 <? lMsgs then tl (resendMessages p) else [])
                        (resendInterrupt p) (pendingMessages p)
                        (inputClosed p) (r p)) ;;
      let resend := mkResend (boff resend) (wrap64 (attempts resend + 1))
                             (msg resend) (ackFn resend) in
      if 2 <? attempts resend then
        let (tout, boff') := NextBackOff (boff resend) in
        let resend := mkResend boff' (attempts resend) (msg resend) (ackFn resend) in
        if 0 <? tout
        then ret (inr (InBackoff ctx resend tout))
        else deliver ctx resend
      else deliver ctx resend
  | [] =>
      putP (mkPreserver (resendMessages p) (Some ctx) (pendingMessages p)
                        (inputClosed p) (r p)) ;;
      if 0 <? inputClosed p
      then afterSource ctx (inr ErrTypeClosed)
      else ret (inr (InSourceRead ctx))
  end.

(** What wakes a blocked read: a timer, the end of its context, or the
    source coming back. *)
Inductive Wake : Type := TimerFired | CtxDone | SourceReturned.

(** One turn of a blocked read.  [None]: the wake-up cannot happen in this
    state (the [ctx.Done()] case of a [select] whose context is live, a
    timer where none runs). *)
Definition resume (b : Blocked) (k : Wake) : M (option (ReadOut + Blocked)) :=
  match b, k with
  | InBackoff ctx resend tout, TimerFired =>
      out <- deliver ctx resend ;; ret (Some out)
  | InBackoff ctx resend tout, CtxDone =>
      err <- ctxErr ctx ;;
      match err with
      | Some e => out <- finish ctx (inr e) ;; ret (Some out)
      | None => ret None
      end
  | InSourceRead ctx, SourceReturned =>
      err <- ctxErr ctx ;;
      p <- getP ;;
      res <- liftW (Async_ReadBatch (r p) err) ;;
      out <- afterSource ctx res ;; ret (Some out)
  | InDrain ctx, CtxDone =>
      err <- ctxErr ctx ;;
      match err with
      | Some _ => out <- finish ctx (inr ErrTimeout) ;; ret (Some out)
      | None => ret None
      end
  | InDrain ctx, TimerFired =>
      p <- getP ;;
      if pendingMessages p <=? 0
      then out <- finish ctx (inr ErrTypeClosed) ;; ret (Some out)
      else ret (Some (inr (InDrain ctx)))
  | _, _ => ret None
  end.

(** A read whose backoff sleep, if it takes one, runs to its end. *)
Definition readPastBackoff (parent : Context) : M (ReadOut + Blocked) :=
  out <- ReadBatch parent ;;
  match out with
  | inr (InBackoff ctx resend tout) =>
      woken <- resume (InBackoff ctx resend tout) TimerFired ;;
      ret (match woken with Some o => o | None => out end)
  | _ => ret out
  end.

(** [n] reads in a row, nothing happening in between. *)
Fixpoint readMany (n : nat) (parent : Context) : M (list (ReadOut + Blocked)) :=
  match n with
  | O => ret []
  | S k =>
      out <- readPastBackoff parent ;;
      outs <- readMany k parent ;;
      ret (out :: outs)
  end.

(** One round of a batch that keeps failing: a read, through its backoff
    sleep if it takes one, and the callback it returned called with the
    failure [err].  The result is the delay the read slept for. *)
Definition failingRound (parent : Context) (err : error) : M (option Duration) :=
  out <- ReadBatch parent ;;
  match out with
  | inr (InBackoff ctx resend tout) =>
      woken <- resume (InBackoff ctx resend tout) TimerFired ;;
      match woken with
      | Some (inl (inl (_, f))) => callAck f None (Some err) ;; ret (Some tout)
      | _ => ret (Some tout)
      end
  | inl (inl (_, f)) => callAck f None (Some err) ;; ret None
  | _ => ret None
  end.

Fixpoint failingRounds (n : nat) (parent : Context) (err : error)
    : M (list (option Duration)) :=
  match n with
  | O => ret []
  | S k =>
      d <- failingRound parent err ;;
      ds <- failingRounds k parent err ;;
      ret (d :: ds)
  end.

(** The queue entry a read is serving: the one behind the callback it
    returned, or the one it holds while it sleeps. *)
Definition servedEntry (out : ReadOut + Blocked) : option asyncPreserverResend :=
  match out with
  | inl (inl (_, f)) => Some (entryOf f)
  | inr (InBackoff _ resend _) => Some resend
  | _ => None
  end.

(** The batch a read returned. *)
Definition deliveredBatch (out : ReadOut + Blocked) : option Batch :=
  match out with
  | inl (inl (b, _)) => Some b
  | _ => None
  end.

(** ** The decorator among its callers *)

(** One reader calls [Connect], [ReadBatch] and [Close]; the wrapped
    acknowledgement functions it was handed are called from other
    goroutines, each once, at any later time, also while a read is
    blocked.  [reader] is the read in progress, [handed] the functions
    handed out and not yet called. *)
Record Sys := mkSys {
  st : State;
  reader : option Blocked;
  handed : list WrappedAck
}.

Definition initSys (src : Async) (w : W) : Sys :=
  mkSys (mkState (NewAsyncPreserver src) w [] 0) None [].

Inductive Event : Type :=
| CallConnect (ctx : Context)
| CallClose (ctx : Context)
| CallReadBatch (parent : Context)
| ParentDone (e : error)
| WakeRead (k : Wake)
| CallAckFn (i : nat) (ctx : Context) (res : option error).

Inductive Output : Type :=
| Silent
| ConnectReturned (err : option error)
| CloseReturned (err : option error)
| ReadReturned (out : ReadOut)
| AckReturned (err : option error).

Definition ctxOf (b : Blocked) : nat :=
  match b with
  | InBackoff ctx _ _ => ctx
  | InSourceRead ctx => ctx
  | InDrain ctx => ctx
  end.

Fixpoint removeNth {A} (i : nat) (l : list A) : list A :=
  match i, l with
  | _, [] => []
  | O, _ :: rest => rest
  | S j, x :: rest => x :: removeNth j rest
  end.

(** Where a read stands after a turn: returned, or blocked again. *)
Definition settle (s' : State) (hs : list WrappedAck) (out : ReadOut + Blocked)
    : Sys * Output :=
  match out with
  | inl (inl (b, f)) => (mkSys s' None (hs ++ [f]), ReadReturned (inl (b, f)))
  | inl (inr err) => (mkSys s' None hs, ReadReturned (inr err))
  | inr blk => (mkSys s' (Some blk) hs, Silent)
  end.

(** One atomic step of the system; [None] when the event cannot happen in
    the state. *)
Definition step (e : Event) (s : Sys) : option (Sys * Output) :=
  match e with
  | CallConnect ctx =>
      let (err, s') := Connect ctx (st s) in
      Some (mkSys s' (reader s) (handed s), ConnectReturned err)
  | CallClose ctx =>
      let (err, s') := Close ctx (st s) in
      Some (mkSys s' (reader s) (handed s), CloseReturned err)
  | CallReadBatch parent =>
      match reader s with
      | Some _ => None
      | None =>
          let (out, s') := ReadBatch parent (st s) in
          Some (settle s' (handed s) out)
      end
  | ParentDone err =>
      match reader s with
      | Some blk =>
          let (_, s') := endCtx (ctxOf blk) err (st s) in
          Some (mkSys s' (reader s) (handed s), Silent)
      | None => None
      end
  | WakeRead k =>
      match reader s with
      | Some blk =>
          match resume blk k (st s) with
          | (Some out, s') => Some (settle s' (handed s) out)
          | (None, _) => None
          end
      | None => None
      end
  | CallAckFn i ctx res =>
      match nth_error (handed s) i with
      | Some f =>
          let (out, s') := callAck f ctx res (st s) in
          Some (mkSys s' (reader s) (removeNth i (handed s)), AckReturned (fst out))
      | None => None
      end
  end.

(** The runs of the system from its initial state, with the events that
    happened and what each returned, oldest first. *)
Inductive Run (src : Async) (w : W) : list (Event * Output) -> Sys -> Prop :=
| Run_init : Run src w [] (initSys src w)
| Run_step tr s e s' o :
    Run src w tr s -> step e s = Some (s', o) -> Run src w (tr ++ [(e, o)]) s'.

(** Replaying a list of events; [None] as soon as one cannot happen. *)
Fixpoint replay (es : list Event) (s : Sys) : option (Sys * list (Event * Output)) :=
  match es with
  | [] => Some (s, [])
  | e :: rest =>
      match step e s with
      | Some (s', o) =>
          match replay rest s' with
          | Some (s'', tr) => Some (s'', (e, o) :: tr)
          | None => None
          end
      | None => None
      end
  end.

(** What a step does to the in-flight counter according to the rule "plus
    one when a fresh read is delivered, minus one when a wrapped callback
    reports success". *)
Definition delta (eo : Event * Output) : Z :=
  match eo with
  | (WakeRead SourceReturned, ReadReturned (inl _)) => 1
  | (CallAckFn _ _ None, _) => -1
  | _ => 0
  end.

Definition net (tr : list (Event * Output)) : Z :=
  fold_right (fun eo acc => delta eo + acc) 0 tr.

(** The counter after a step that the rule gives the change [d]. *)
Definition bump (d : Z) (pending : Z) : Z :=
  if d =? 0 then pending else wrap64 (pending + d).

(** The entry a read blocked in its backoff sleep holds. *)
Definition heldByReader (s : Sys) : nat :=
  match reader s with
  | Some (InBackoff _ _ _) => 1%nat
  | _ => 0%nat
  end.

(** ** Vocabulary of the properties *)

(** [e'] is the entry [e] as a read takes it off the queue: one more
    attempt, the same batch and original callback. *)
Definition popped (e e' : asyncPreserverResend) : Prop :=
  msg e' = msg e /\ ackFn e' = ackFn e /\ attempts e' = wrap64 (attempts e + 1).

(** [o] is a delivery of the queue entry [e]: the batch handed to the
    caller has the contents of the entry's batch, and the callback handed
    out holds the entry with one more attempt. *)
Definition serves (e : asyncPreserverResend) (o : ReadOut + Blocked) : Prop :=
  exists b f, o = inl (inl (b, f)) /\ popped e (entryOf f) /\
              map dataRef b = map dataRef (msg e).

(** What the reads of a trace returned, oldest first. *)
Fixpoint returnsOf (tr : list (Event * Output)) : list ReadOut :=
  match tr with
  | [] => []
  | (_, ReadReturned out) :: rest => out :: returnsOf rest
  | _ :: rest => returnsOf rest
  end.

(** The front entry is redelivered, read to the letter: whatever happens
    while it runs, a read that is started with [e] at the front of the
    queue and returns, returns a delivery of [e]. *)
Definition frontRedelivered (sys : Sys) : Prop :=
  forall e rest (parent : Context) es sys' tr out,
    resendMessages (pres (st sys)) = e :: rest ->
    replay (CallReadBatch parent :: es) sys = Some (sys', tr) ->
    hd_error (returnsOf tr) = Some out ->
    serves e (inl out).

(** Earlier entries are always redelivered before later ones, read to the
    letter: in every run from [sys], a read that returns a delivery of a
    queued entry comes after a read that returned a delivery of each
    entry queued before it. *)
Definition redeliveredInOrder (sys : Sys) : Prop :=
  forall a b q1 q2 q3 es sys' tr i ob,
    resendMessages (pres (st sys)) = q1 ++ a :: q2 ++ b :: q3 ->
    replay es sys = Some (sys', tr) ->
    nth_error (returnsOf tr) i = Some ob ->
    serves b (inl ob) ->
    exists j oa, (j < i)%nat /\ nth_error (returnsOf tr) j = Some oa /\
                 serves a (inl oa).

(** The batches the decorator is answerable for: queued, handed out with a
    callback not yet called, or held by a read in its backoff sleep. *)
Definition owed (sys : Sys) : Z :=
  Z.of_nat (List.length (resendMessages (pres (st sys)))
            + List.length (handed sys) + heldByReader sys).

(** While a read waits on the source or drains, the interrupt handle is
    the cancel function of that read's context. *)
Definition interruptInstalled (sys : Sys) : Prop :=
  forall n, reader sys = Some (InSourceRead n) \/ reader sys = Some (InDrain n) ->
            resendInterrupt (pres (st sys)) = Some n.

(** A success round: a read, through its backoff sleep if it takes one,
    and the callback it returned called with success.  The result is what
    the callback returns. *)
Definition ackRound (parent ctx : Context) : M (option error) :=
  out <- readPastBackoff parent ;;
  match out with
  | inl (inl (_, f)) => res <- callAck f ctx None ;; ret (fst res)
  | _ => ret None
  end.

(** The context [k] has ended. *)
Definition ended (k : nat) (s : State) : Prop := lookupErr k (done s) <> None.

(** The interrupt handle is the cancel function of a context that has
    ended, unless it belongs to a read that is waiting on the source or
    draining. *)
Definition handleSpent (sys : Sys) : Prop :=
  forall k, resendInterrupt (pres (st sys)) = Some k ->
            ended k (st sys) \/ reader sys = Some (InSourceRead k) \/
            reader sys = Some (InDrain k).

(** No read is waiting on the source. *)
Definition notOnSource (sys : Sys) : Prop :=
  forall n, reader sys <> Some (InSourceRead n).

End Preserver.

(** * A source to run the decorator against *)

Module Demo.

(** The draws and the clock of the runs below: the first delay of a
    policy is drawn at 0.4, the second at 0.25, the later ones at 0.5. *)
Definition demoFloat64 (k : nat) : Q :=
  match k with
  | O => 2 # 5
  | S O => 1 # 4
  | _ => 1 # 2
  end.

Definition demoChance : Chance :=
  mkChance demoFloat64
           ltac:(intros [|[|k]]; split; cbv; solve [reflexivity | discriminate])
           (fun _ => 0).

#[local] Existing Instance demoChance.

(** The batches the source has yet to produce, and the results its
    acknowledgement functions have been called with, tagged with the
    number of the batch. *)
Record World := mkWorld {
  feed : list Batch;
  acked : list (nat * option error)
}.

Definition origAck (id : nat) : @AsyncAckFn World :=
  fun _ res w => (mkWorld (feed w) (acked w ++ [(id, res)]), None).

(** A source that hands out its batches in order and reports closed once
    it has none left; a read whose context has ended returns the
    context's error. *)
Definition source : @Async World :=
  mkAsync
    (fun _ w => match feed w with
                | [] => (w, Some ErrTypeClosed)
                | _ => (w, None)
                end)
    (fun ctx w => match ctx with
                  | Some e => (w, inr e)
                  | None =>
                      match feed w with
                      | [] => (w, inr ErrTypeClosed)
                      | b :: rest =>
                          (mkWorld rest (acked w), inl (b, origAck (List.length rest)))
                      end
                  end)
    (fun _ w => (w, None)).

Definition part (n : nat) : Part := mkPart n [].

Definition three : Batch := [part 10; part 11; part 12].
Definition one : Batch := [part 20].

Definition boom : error := ErrOther "processing failed".

(** A decorator with nothing in flight, and variations of it. *)
Definition idle : @State World :=
  mkState (NewAsyncPreserver source) (mkWorld [] []) [] 0.

Definition withPreserver (queue : list (@asyncPreserverResend World))
    (pending closed : Z) : @State World :=
  mkState (mkPreserver queue None pending closed source) (mkWorld [] []) [] 0.

Definition entryThree := newResendMsg three (origAck 0).
Definition entryOne := newResendMsg one (origAck 1).

(** The system after the events [es], and what they returned. *)
Definition after (w : World) (es : list Event) : Sys :=
  match replay es (initSys source w) with
  | Some (s, _) => s
  | None => initSys source w
  end.

Definition traceOf (w : World) (es : list Event) : list (Event * Output) :=
  match replay es (initSys source w) with
  | Some (_, tr) => tr
  | None => []
  end.

(** A batch is read, fails, is redelivered and succeeds. *)
Definition failThenSucceed : list Event :=
  [CallReadBatch None; WakeRead SourceReturned;
   CallAckFn 0 None (Some boom);
   CallReadBatch None;
   CallAckFn 0 None None].

(** A batch is read and the source then closes with the batch still in
    flight. *)
Definition closeWhileInFlight : list Event :=
  [CallReadBatch None; WakeRead SourceReturned;
   CallReadBatch None; WakeRead SourceReturned].

(** The one-part entry on its way to a third redelivery. *)
Definition entryTwice : @asyncPreserverResend World :=
  mkResend (boff entryOne) 2 one (origAck 1).

(** A read whose context has been cancelled while it waits on the source. *)
Definition cancelledRead : @State World :=
  mkState (mkPreserver [] (Some 0%nat) 0 0 source) (mkWorld [one] [])
          [(0%nat, Canceled)] 1.

(** A batch is read and a second read waits on the source. *)
Definition readWhileInFlight : list Event :=
  [CallReadBatch None; WakeRead SourceReturned; CallReadBatch None].

(** Two batches are read; the first fails, is redelivered and fails
    again, twice over, and then the second fails: the queue holds the
    first batch, on its way to a third redelivery, in front of the
    second. *)
Definition bothFailed : list Event :=
  [CallReadBatch None; WakeRead SourceReturned;
   CallReadBatch None; WakeRead SourceReturned;
   CallAckFn 0 None (Some boom);
   CallReadBatch None; CallAckFn 1 None (Some boom);
   CallReadBatch None; CallAckFn 1 None (Some boom);
   CallAckFn 0 None (Some boom)].

Definition bothQueued : Sys := after (mkWorld [one; three] []) bothFailed.

(** The caller's scope ends while a read sleeps, the read wakes on it,
    and the caller reads again. *)
Definition scopeEndsThenRead : list Event :=
  [ParentDone Canceled; WakeRead CtxDone; CallReadBatch None].

(** A structured error that reports the part delivered second. *)
Definition secondFailed : error :=
  ErrWalkable 1 (combine (ShallowCopy (fst (fst (wrapAckFn entryThree idle))))
                         [None; Some boom; None]).

End Demo.

Import Demo.



(** * Properties *)

Section Properties.

Context {W : Type} {chance : Chance}.
Implicit Types (s : @State W) (m : @asyncPreserverResend W) (f : @WrappedAck W).

Ltac unfold_monad :=
  unfold enqueue, addPending, callInterrupt, cancel, endCtx, WithCancel, fresh,
         ctxErr, liftW, putP, getP, bind, ret in *; cbn [fst snd] in *.

(** ** Close *)

(** C10: [Close] can be called in every state and hands the call to the
    wrapped source, returning what the source returns; it does not look at
    the resend queue or the in-flight counter, and leaves the queue, the
    counter, the closed flag, the interrupt handle, a read in progress and
    the callbacks handed out as they were. *)
Theorem Close_delegates (ctx : Context) (sys : @Sys W) :
  step (CallClose ctx) sys =
    Some (mkSys (mkState (pres (st sys))
                         (fst (Async_Close (r (pres (st sys))) ctx (world (st sys))))
                         (done (st sys)) (nextId (st sys)))
                (reader sys) (handed sys),
          CloseReturned (snd (Async_Close (r (pres (st sys))) ctx (world (st sys))))).
Proof.
  unfold step, Close. unfold_monad.
  destruct (Async_Close (r (pres (st sys))) ctx (world (st sys))); reflexivity.
Qed.

(** ** Connect *)

(** C4: when the source's [Connect] reports the closed error while the
    in-flight counter is positive, [Connect] returns nil and sets the
    closed flag; every other outcome of the source is returned as it is
    and the flag is left alone.  Nothing else of the decorator changes. *)
Theorem Connect_suppresses_closed_while_in_flight (ctx : Context) s :
  let src := Async_Connect (r (pres s)) ctx (world s) in
  let p := pres s in
  let out := Connect ctx s in
  world (snd out) = fst src /\
  done (snd out) = done s /\ nextId (snd out) = nextId s /\
  resendMessages (pres (snd out)) = resendMessages p /\
  resendInterrupt (pres (snd out)) = resendInterrupt p /\
  pendingMessages (pres (snd out)) = pendingMessages p /\
  r (pres (snd out)) = r p /\
  (errors_Is_ErrTypeClosed (snd src) = true -> 0 < pendingMessages p ->
     fst out = None /\ inputClosed (pres (snd out)) = 1) /\
  (errors_Is_ErrTypeClosed (snd src) = false \/ pendingMessages p <= 0 ->
     fst out = snd src /\ inputClosed (pres (snd out)) = inputClosed p).
Proof.
  cbv zeta. unfold Connect. unfold_monad.
  destruct (Async_Connect (r (pres s)) ctx (world s)) as [w' err]; cbn.
  destruct (errors_Is_ErrTypeClosed err) eqn:Hc;
    destruct (0 <? pendingMessages (pres s)) eqn:Hp; cbn;
    repeat split; try reflexivity; try lia; try congruence;
    intros; try reflexivity;
    try (apply Z.ltb_ge in Hp; lia); try (apply Z.ltb_lt in Hp; lia);
    try (destruct H; [congruence | apply Z.ltb_lt in Hp; lia]).
Qed.

(** ** The wrapped acknowledgement functions *)

Lemma wrap64_id z : min_int64 <= z <= max_int64 -> wrap64 z = z.
Proof.
  unfold wrap64, min_int64, max_int64. intros H.
  rewrite Z.mod_small; lia.
Qed.

Lemma callAck_failure (ctx : Context) f s (e : error) :
  fst (fst (callAck f ctx (Some e) s)) = None /\
  world (snd (callAck f ctx (Some e) s)) = world s /\
  pendingMessages (pres (snd (callAck f ctx (Some e) s))) = pendingMessages (pres s) /\
  inputClosed (pres (snd (callAck f ctx (Some e) s))) = inputClosed (pres s) /\
  exists m', resendMessages (pres (snd (callAck f ctx (Some e) s))) =
               resendMessages (pres s) ++ [m'] /\
             ackFn m' = ackFn (entryOf f) /\
             attempts m' = attempts (entryOf f) /\
             boff m' = boff (entryOf f).
Proof.
  destruct f as [g m | m]; unfold callAck; unfold_monad;
    destruct (resendInterrupt (pres s)) as [n |]; cbn;
    try destruct (lookupErr n (done s)); cbn;
    repeat split; eexists; repeat split.
Qed.

Lemma callAck_success (ctx : Context) f s :
  callAck f ctx None s =
    ((snd (ackFn (entryOf f) ctx None (world s)), f),
     mkState (mkPreserver (resendMessages (pres s)) (resendInterrupt (pres s))
                          (wrap64 (pendingMessages (pres s) + -1))
                          (inputClosed (pres s)) (r (pres s)))
             (fst (ackFn (entryOf f) ctx None (world s)))
             (done s) (nextId s)).
Proof.
  destruct f as [g m | m]; unfold callAck; unfold_monad; cbn;
    destruct (ackFn m ctx None (world s)) as [w' o]; reflexivity.
Qed.

(** C2: a wrapped acknowledgement function called with a failure appends
    one entry, carrying the original callback, to the resend queue and
    returns nil; the original callback is not called (the world is
    untouched) and the in-flight counter stays.  Called with success it
    takes one off the in-flight counter, calls the original callback with
    the success result and returns what that returns; the queue stays. *)
Theorem wrapped_ack_absorbs_failure_forwards_success (ctx : Context) f s :
  (forall e,
     let out := callAck f ctx (Some e) s in
     fst (fst out) = None /\
     world (snd out) = world s /\
     pendingMessages (pres (snd out)) = pendingMessages (pres s) /\
     inputClosed (pres (snd out)) = inputClosed (pres s) /\
     exists m', resendMessages (pres (snd out)) = resendMessages (pres s) ++ [m'] /\
                ackFn m' = ackFn (entryOf f) /\
                attempts m' = attempts (entryOf f) /\
                boff m' = boff (entryOf f)) /\
  (let out := callAck f ctx None s in
   let orig := ackFn (entryOf f) ctx None (world s) in
   fst (fst out) = snd orig /\
   world (snd out) = fst orig /\
   pendingMessages (pres (snd out)) = wrap64 (pendingMessages (pres s) - 1) /\
   (min_int64 < pendingMessages (pres s) <= max_int64 ->
      pendingMessages (pres (snd out)) = pendingMessages (pres s) - 1) /\
   resendMessages (pres (snd out)) = resendMessages (pres s) /\
   inputClosed (pres (snd out)) = inputClosed (pres s)).
Proof.
  split.
  - intros e out; subst out. apply callAck_failure.
  - cbv zeta. rewrite callAck_success; cbn.
    replace (pendingMessages (pres s) + -1) with (pendingMessages (pres s) - 1) by lia.
    repeat split.
    intros H. apply wrap64_id. unfold min_int64, max_int64 in *. lia.
Qed.

Lemma WalkParts_collectErrored g m walk : forall i acc,
  WalkParts walk i (collectErrored g m) acc =
    if forallb (fun p => 0 <=? GetIndex g p) (erroredParts walk)
    then acc ++ map (fun p => Get (msg m) (GetIndex g p)) (erroredParts walk)
    else msg m.
Proof.
  induction walk as [| [p [e |]] rest IH]; intros i acc; cbn.
  - now rewrite app_nil_r.
  - destruct (0 <=? GetIndex g p); cbn.
    + rewrite IH. now rewrite <- app_assoc.
    + reflexivity.
  - apply IH.
Qed.

Lemma GetIndex_tagFrom g (b : Batch) : forall k i d,
  (i < List.length b)%nat ->
  GetIndex g (nth i (ShallowCopy (tagFrom g k b)) d) = k + Z.of_nat i.
Proof.
  induction b as [| p rest IH]; intros k i d Hi; cbn in Hi; [lia |].
  destruct i as [| i].
  - unfold GetIndex; cbn. rewrite Nat.eqb_refl. lia.
  - change (nth (S i) (ShallowCopy (tagFrom g k (p :: rest))) d)
      with (nth i (ShallowCopy (tagFrom g (k + 1) rest)) d).
    rewrite (IH (k + 1) i d) by lia. lia.
Qed.

(** C1: the batch that a failed multi-part delivery puts back.  The
    callback handed out for a batch that does not have exactly one part
    is the batch closure, and its sort group locates every delivered part
    at the position it came from.  Called with a structured error that
    reports fewer failures than the batch has parts: when every failed
    part is located and there is at least one, the batch of the entry
    appended to the queue is the original parts at the located positions,
    in walk order; when some failed part is not located, or no part
    failed, it holds the whole original batch.  Called with any other error, or with
    a structured error reporting as many failures as there are parts, it
    holds the whole original batch. *)
Theorem partial_failure_retries_located_parts m s0 :
  Len (msg m) <> 1 ->
  let g := nextId s0 in
  let delivered := ShallowCopy (fst (fst (wrapAckFn m s0))) in
  let f := snd (fst (wrapAckFn m s0)) in
  f = BatchAck g m /\
  (forall i d, (i < List.length (msg m))%nat ->
     GetIndex g (nth i delivered d) = Z.of_nat i) /\
  forall (ctx : Context) (e : error) s,
    let out := callAck f ctx (Some e) s in
    let retry := resendBatch g m e in
    (exists m',
       resendMessages (pres (snd out)) = resendMessages (pres s) ++ [m'] /\
       msg m' = retry /\
       ackFn m' = ackFn m /\ attempts m' = attempts m /\ boff m' = boff m) /\
    (forall n walk,
       e = ErrWalkable n walk -> n < Len (msg m) ->
       Forall (fun p => 0 <= GetIndex g p) (erroredParts walk) ->
       erroredParts walk <> [] ->
       retry = map (fun p => Get (msg m) (GetIndex g p)) (erroredParts walk)) /\
    (forall n walk,
       e = ErrWalkable n walk -> n < Len (msg m) ->
       Exists (fun p => GetIndex g p < 0) (erroredParts walk) \/
         erroredParts walk = [] ->
       retry = msg m) /\
    ((forall n walk, e = ErrWalkable n walk -> Len (msg m) <= n) ->
       retry = msg m).
Proof.
  intros Hmulti. cbv zeta.
  apply Z.eqb_neq in Hmulti.
  unfold wrapAckFn, wrapBatchAckFn, NewSortGroup. rewrite Hmulti.
  unfold_monad. split; [reflexivity | split].
  { intros i d Hi. now rewrite GetIndex_tagFrom. }
  intros ctx e s. split; [| split; [| split]].
  - exists (setMsg m (resendBatch (nextId s0) m e)).
    split; [| repeat split].
    unfold callAck; unfold_monad.
    destruct (resendInterrupt (pres s)) as [k |]; cbn;
      try destruct (lookupErr k (done s)); reflexivity.
  - intros n walk -> Hn Hall Hne. unfold resendBatch.
    apply Z.ltb_lt in Hn; rewrite Hn.
    rewrite WalkParts_collectErrored.
    replace (forallb _ (erroredParts walk)) with true.
    + cbn [QuickBatch_nil app].
      destruct (erroredParts walk) as [| p ps]; [congruence |].
      cbn. unfold Len. cbn [List.length]. reflexivity.
    + symmetry. apply forallb_forall. rewrite Forall_forall in Hall.
      intros p Hp. apply Z.leb_le. now apply Hall.
  - intros n walk -> Hn Hbad. unfold resendBatch.
    apply Z.ltb_lt in Hn; rewrite Hn.
    rewrite WalkParts_collectErrored.
    destruct Hbad as [Hex | Hnil].
    + replace (forallb _ (erroredParts walk)) with false.
      * now destruct (Len (msg m) =? 0).
      * symmetry. apply not_true_is_false. intros Hf.
        rewrite forallb_forall in Hf. apply Exists_exists in Hex.
        destruct Hex as [p [Hp Hlt]]. specialize (Hf p Hp).
        apply Z.leb_le in Hf. lia.
    + rewrite Hnil. reflexivity.
  - intros Hge. unfold resendBatch. destruct e; try reflexivity.
    specialize (Hge _ _ eq_refl). apply Z.ltb_ge in Hge. now rewrite Hge.
Qed.

(** ** Serving the resend queue *)

Lemma deliver_spec n m s :
  exists b f s',
    deliver n m s = (inl (inl (ShallowCopy b, f)), s') /\
    entryOf f = m /\
    map dataRef b = map dataRef (msg m) /\
    pres s' = pres s /\
    world s' = world s.
Proof.
  unfold deliver, finish, wrapAckFn, wrapSingleAckFn, wrapBatchAckFn, NewSortGroup.
  assert (Href : forall g k (b : Batch), map dataRef (tagFrom g k b) = map dataRef b).
  { intros g k b; revert k; induction b as [| p rest IH]; intros k; cbn;
      [reflexivity | now rewrite IH]. }
  destruct (Len (msg m) =? 1); unfold_monad; cbn.
  - exists (msg m), (SingleAck m).
    destruct (lookupErr n (done s)); cbn; eexists; repeat split.
  - exists (tagFrom (nextId s) 0 (msg m)), (BatchAck (nextId s) m).
    destruct (lookupErr n (done s)); cbn; eexists; repeat split; apply Href.
Qed.

Lemma WithCancel_frame (parent : Context) s :
  fst (WithCancel parent s) = nextId s /\
  pres (snd (WithCancel parent s)) = pres s /\
  world (snd (WithCancel parent s)) = world s /\
  nextId (snd (WithCancel parent s)) = S (nextId s).
Proof.
  unfold WithCancel. unfold_monad. destruct parent as [e |]; cbn.
  - destruct (lookupErr (nextId s) (done s)); cbn; repeat split.
  - repeat split.
Qed.

(** [ReadBatch] with a queue that is not empty, as one equation. *)
Lemma ReadBatch_pop (parent : Context) s e rest :
  resendMessages (pres s) = e :: rest ->
  ReadBatch parent s =
    let n := nextId s in
    let s2 := mkState (mkPreserver rest (resendInterrupt (pres s))
                                   (pendingMessages (pres s))
                                   (inputClosed (pres s)) (r (pres s)))
                      (world s) (done (snd (WithCancel parent s))) (S (nextId s)) in
    let e1 := mkResend (boff e) (wrap64 (attempts e + 1)) (msg e) (ackFn e) in
    if 2 <? attempts e1 then
      let (tout, b') := NextBackOff (boff e) in
      let e2 := mkResend b' (attempts e1) (msg e) (ackFn e) in
      if 0 <? tout then (inr (InBackoff n e2 tout), s2) else deliver n e2 s2
    else deliver n e1 s2.
Proof.
  intros Hq.
  assert (Hrest : (if 1 <? Z.of_nat (List.length (e :: rest))
                   then tl (e :: rest) else []) = rest).
  { destruct rest as [| a rest']; [reflexivity |].
    replace (1 <? Z.of_nat (List.length (e :: a :: rest'))) with true; [reflexivity |].
    symmetry. apply Z.ltb_lt. cbn [List.length]. lia. }
  unfold ReadBatch, WithCancel. unfold_monad.
  destruct parent as [err |]; cbn;
    try destruct (lookupErr (nextId s) (done s)); cbn;
    rewrite Hq, Hrest; cbn;
    destruct (2 <? wrap64 (attempts e + 1)); try reflexivity;
    destruct (NextBackOff (boff e)) as [tout b']; destruct (0 <? tout); reflexivity.
Qed.

Lemma ReadBatch_front (parent : Context) s e rest :
  resendMessages (pres s) = e :: rest ->
  let out := ReadBatch parent s in
  resendMessages (pres (snd out)) = rest /\
  resendInterrupt (pres (snd out)) = resendInterrupt (pres s) /\
  pendingMessages (pres (snd out)) = pendingMessages (pres s) /\
  inputClosed (pres (snd out)) = inputClosed (pres s) /\
  world (snd out) = world s /\
  exists e', servedEntry (fst out) = Some e' /\ popped e e'.
Proof.
  intros Hq out; subst out. rewrite (ReadBatch_pop parent s e rest Hq).
  cbv zeta. cbn [attempts].
  set (s2 := mkState _ _ _ _).
  assert (Hfin : forall m, popped e m ->
            resendMessages (pres (snd (deliver (nextId s) m s2))) = rest /\
            resendInterrupt (pres (snd (deliver (nextId s) m s2))) =
              resendInterrupt (pres s) /\
            pendingMessages (pres (snd (deliver (nextId s) m s2))) =
              pendingMessages (pres s) /\
            inputClosed (pres (snd (deliver (nextId s) m s2))) = inputClosed (pres s) /\
            world (snd (deliver (nextId s) m s2)) = world s /\
            exists e', servedEntry (fst (deliver (nextId s) m s2)) = Some e' /\
                       popped e e').
  { intros m Hm.
    destruct (deliver_spec (nextId s) m s2) as (b & f & s3 & Heq & Hf & _ & Hpres & Hwld).
    rewrite Heq; cbn [fst snd servedEntry].
    rewrite Hpres, Hwld. subst s2; cbn.
    repeat split. exists m. now rewrite Hf. }
  destruct (2 <? wrap64 (attempts e + 1)).
  - destruct (NextBackOff (boff e)) as [tout b'].
    destruct (0 <? tout).
    + subst s2; cbn. repeat split.
      eexists; split; [reflexivity |]. repeat split.
    + apply Hfin. repeat split.
  - apply Hfin. repeat split.
Qed.

Lemma map_dataRef_ShallowCopy (b : Batch) : map dataRef (ShallowCopy b) = map dataRef b.
Proof.
  unfold ShallowCopy. rewrite map_map. reflexivity.
Qed.

Lemma readPastBackoff_pop (parent : Context) s e rest :
  resendMessages (pres s) = e :: rest ->
  exists m s2,
    readPastBackoff parent s = deliver (nextId s) m s2 /\
    popped e m /\
    resendMessages (pres s2) = rest /\
    pendingMessages (pres s2) = pendingMessages (pres s) /\
    world s2 = world s.
Proof.
  intros Hq. unfold readPastBackoff. unfold bind at 1.
  rewrite (ReadBatch_pop parent s e rest Hq). cbv zeta. cbn [attempts].
  set (s2 := mkState _ _ _ _).
  assert (Hinl : forall m,
            (let (a, s') := deliver (nextId s) m s2 in
             match a with
             | inr (InBackoff ctx resend tout) =>
                 bind (resume (InBackoff ctx resend tout) TimerFired)
                      (fun woken => ret (match woken with Some o => o | None => a end))
             | _ => ret a
             end s') = deliver (nextId s) m s2).
  { intros m.
    destruct (deliver_spec (nextId s) m s2) as (b & f & s3 & Heq & _).
    rewrite Heq. reflexivity. }
  destruct (2 <? wrap64 (attempts e + 1)).
  - destruct (NextBackOff (boff e)) as [tout b'].
    destruct (0 <? tout).
    + eexists (mkResend b' _ _ _), s2. split; [| repeat split].
      unfold resume. unfold_monad.
      destruct (deliver (nextId s) _ s2); reflexivity.
    + eexists (mkResend b' _ _ _), s2. split; [apply Hinl | repeat split].
  - eexists (mkResend (boff e) _ _ _), s2. split; [apply Hinl | repeat split].
Qed.

Lemma readPastBackoff_front (parent : Context) s e rest :
  resendMessages (pres s) = e :: rest ->
  resendMessages (pres (snd (readPastBackoff parent s))) = rest /\
  pendingMessages (pres (snd (readPastBackoff parent s))) = pendingMessages (pres s) /\
  world (snd (readPastBackoff parent s)) = world s /\
  serves e (fst (readPastBackoff parent s)).
Proof.
  intros Hq.
  destruct (readPastBackoff_pop parent s e rest Hq) as (m & s2 & Heq & Hm & Hr & Hp & Hw).
  rewrite Heq.
  destruct (deliver_spec (nextId s) m s2) as (b & f & s3 & Hd & Hf & Hb & Hpres & Hwld).
  rewrite Hd; cbn [fst snd]. rewrite Hpres, Hwld.
  repeat split; try assumption.
  exists (ShallowCopy b), f. rewrite Hf.
  split; [reflexivity | split; [exact Hm |]].
  rewrite map_dataRef_ShallowCopy, Hb. destruct Hm as (Hmsg & _). now rewrite Hmsg.
Qed.

Lemma readMany_S (parent : Context) k s :
  readMany (S k) parent s =
    (fst (readPastBackoff parent s)
       :: fst (readMany k parent (snd (readPastBackoff parent s))),
     snd (readMany k parent (snd (readPastBackoff parent s)))).
Proof.
  cbn [readMany]. unfold bind, ret.
  destruct (readPastBackoff parent s) as [o s1]; cbn [fst snd].
  destruct (readMany k parent s1); reflexivity.
Qed.

Lemma readMany_fifo (parent : Context) q : forall s tail,
  resendMessages (pres s) = q ++ tail ->
  Forall2 serves q (fst (readMany (List.length q) parent s)) /\
  resendMessages (pres (snd (readMany (List.length q) parent s))) = tail /\
  pendingMessages (pres (snd (readMany (List.length q) parent s))) =
    pendingMessages (pres s) /\
  world (snd (readMany (List.length q) parent s)) = world s.
Proof.
  induction q as [| e q IH]; intros s tail Hq; cbn [List.length].
  - cbn. repeat split; [constructor | exact Hq].
  - cbn [app] in Hq. rewrite readMany_S; cbn [fst snd].
    destruct (readPastBackoff_front parent s e (q ++ tail) Hq) as (Hq1 & Hp1 & Hw1 & Hs1).
    destruct (IH (snd (readPastBackoff parent s)) tail Hq1) as (Hall & Hq2 & Hp2 & Hw2).
    split; [constructor; assumption |].
    split; [assumption |].
    split; congruence.
Qed.

(** C3: a read that finds the resend queue not empty takes the front entry
    off it and serves that entry, without calling the source and without
    touching the in-flight counter: it returns the entry at once, or, from
    the entry's third attempt, holds it through the backoff wait and
    returns it when the wait has run to its end.  Entries are appended at
    the back when a callback fails and taken off the front, so they are
    served in the order they were enqueued: after two failures, reads in
    a row, their waits run to the end, serve what was queued before, then
    the first failed batch, then the second, and the source is still not
    called.  What becomes of an entry whose wait is cut short is not part
    of this statement. *)
Theorem retries_served_first_in_fifo_order (parent : Context) s :
  (forall e rest,
     resendMessages (pres s) = e :: rest ->
     let out := ReadBatch parent s in
     resendMessages (pres (snd out)) = rest /\
     pendingMessages (pres (snd out)) = pendingMessages (pres s) /\
     world (snd out) = world s /\
     exists e', servedEntry (fst out) = Some e' /\ popped e e') /\
  (forall fa fb (ctxa ctxb : Context) (ea eb : error),
     let s1 := snd (callAck fa ctxa (Some ea) s) in
     let s2 := snd (callAck fb ctxb (Some eb) s1) in
     let q := resendMessages (pres s) in
     exists a b,
       ackFn a = ackFn (entryOf fa) /\ ackFn b = ackFn (entryOf fb) /\
       resendMessages (pres s2) = q ++ [a; b] /\
       let outs := readMany (List.length q + 2) parent s2 in
       Forall2 serves (q ++ [a; b]) (fst outs) /\
       resendMessages (pres (snd outs)) = [] /\
       world (snd outs) = world s) /\
  (forall e rest,
     resendMessages (pres s) = e :: rest ->
     let out := readPastBackoff parent s in
     serves e (fst out) /\
     resendMessages (pres (snd out)) = rest /\
     world (snd out) = world s).
Proof.
  split; [| split].
  - intros e rest Hq out; subst out.
    destruct (ReadBatch_front parent s e rest Hq) as (H1 & _ & H3 & _ & H5 & H6).
    auto.
  - intros fa fb ctxa ctxb ea eb. cbv zeta.
    destruct (callAck_failure ctxa fa s ea) as (_ & Hwa & _ & _ & a & Hqa & Hacka & _).
    set (s1 := snd (callAck fa ctxa (Some ea) s)) in *.
    destruct (callAck_failure ctxb fb s1 eb) as (_ & Hwb & _ & _ & b & Hqb & Hackb & _).
    set (s2 := snd (callAck fb ctxb (Some eb) s1)) in *.
    exists a, b. rewrite Hqa, <- app_assoc in Hqb. cbn [app] in Hqb.
    repeat split; try assumption.
    + replace (List.length (resendMessages (pres s)) + 2)%nat
        with (List.length (resendMessages (pres s) ++ [a; b]))
        by (rewrite length_app; reflexivity).
      apply (readMany_fifo parent _ s2 []). now rewrite app_nil_r.
    + replace (List.length (resendMessages (pres s)) + 2)%nat
        with (List.length (resendMessages (pres s) ++ [a; b]))
        by (rewrite length_app; reflexivity).
      apply (readMany_fifo parent _ s2 []). now rewrite app_nil_r.
    + replace (List.length (resendMessages (pres s)) + 2)%nat
        with (List.length (resendMessages (pres s) ++ [a; b]))
        by (rewrite length_app; reflexivity).
      destruct (readMany_fifo parent (resendMessages (pres s) ++ [a; b]) s2 [])
        as (_ & _ & _ & Hw); [now rewrite app_nil_r |].
      rewrite Hw. congruence.
  - intros e rest Hq out; subst out.
    destruct (readPastBackoff_front parent s e rest Hq) as (H1 & _ & H3 & H4).
    auto.
Qed.

(** ** Draining after the source has closed *)

Lemma finish_eq n (out : @ReadOut W) s :
  finish n out s = (inl out, snd (cancel n s)).
Proof.
  unfold finish, bind, ret. destruct (cancel n s) as [[] s']. reflexivity.
Qed.

Lemma ReadBatch_empty (parent : Context) s :
  resendMessages (pres s) = [] ->
  ReadBatch parent s =
    let s1 := snd (WithCancel parent s) in
    let s2 := mkState (mkPreserver [] (Some (nextId s)) (pendingMessages (pres s))
                                   (inputClosed (pres s)) (r (pres s)))
                      (world s) (done s1) (S (nextId s)) in
    if 0 <? inputClosed (pres s)
    then afterSource (nextId s) (inr ErrTypeClosed) s2
    else (inr (InSourceRead (nextId s)), s2).
Proof.
  intros Hq. unfold ReadBatch, WithCancel. unfold_monad.
  destruct parent as [err |]; cbn;
    try destruct (lookupErr (nextId s) (done s)); cbn;
    rewrite Hq; cbn; destruct (0 <? inputClosed (pres s)); reflexivity.
Qed.

Lemma afterSource_error n (err : error) s :
  afterSource n (inr err) s =
    if isTypeClosed err && (0 <? pendingMessages (pres s))
    then (inr (InDrain n), s)
    else (inl (inr err), snd (cancel n s)).
Proof.
  unfold afterSource. unfold bind at 1, getP at 1.
  destruct (isTypeClosed err && (0 <? pendingMessages (pres s))).
  - reflexivity.
  - apply finish_eq.
Qed.

Lemma cancel_frame n s :
  pres (snd (cancel n s)) = pres s /\ world (snd (cancel n s)) = world s.
Proof.
  unfold cancel, endCtx. destruct (lookupErr n (done s)); split; reflexivity.
Qed.

(** C5: a read that finds the resend queue empty and the closed flag set
    makes up the closed error without calling the source; a read whose
    source comes back with the closed error is in the same position.  With
    the in-flight counter at zero (or below) the read returns the closed
    error at once.  With the counter positive it waits on a timer of ten
    milliseconds and on its context: a tick that finds the counter at zero
    returns the closed error, a tick that finds it positive waits again,
    and the end of the context returns the timeout error, which is neither
    of the two context errors. *)
Theorem drain_polls_until_acknowledged_or_timeout (n : nat) s :
  (forall parent : Context,
     resendMessages (pres s) = [] -> 0 < inputClosed (pres s) ->
     let out := ReadBatch parent s in
     world (snd out) = world s /\
     (pendingMessages (pres s) <= 0 -> fst out = inl (inr ErrTypeClosed)) /\
     (0 < pendingMessages (pres s) -> fst out = inr (InDrain (nextId s)))) /\
  (forall err,
     snd (Async_ReadBatch (r (pres s)) (lookupErr n (done s)) (world s)) = inr err ->
     isTypeClosed err = true ->
     let out := resume (InSourceRead n) SourceReturned s in
     (pendingMessages (pres s) <= 0 -> fst out = Some (inl (inr err))) /\
     (0 < pendingMessages (pres s) -> fst out = Some (inr (InDrain n)))) /\
  timerOf (@InDrain W n) = Some (10 * Millisecond) /\
  (let out := resume (InDrain n) TimerFired s in
   (pendingMessages (pres s) <= 0 -> fst out = Some (inl (inr ErrTypeClosed))) /\
   (0 < pendingMessages (pres s) -> out = (Some (inr (InDrain n)), s))) /\
  (let out := resume (InDrain n) CtxDone s in
   (lookupErr n (done s) <> None -> fst out = Some (inl (inr ErrTimeout))) /\
   (lookupErr n (done s) = None -> out = (None, s))) /\
  ErrTimeout <> Canceled /\ ErrTimeout <> DeadlineExceeded.
Proof.
  split; [| split; [| split; [| split; [| split; [| split]]]]].
  - intros parent Hq Hclosed out; subst out.
    rewrite (ReadBatch_empty parent s Hq). cbv zeta.
    apply Z.ltb_lt in Hclosed; rewrite Hclosed.
    rewrite afterSource_error. cbn [isTypeClosed andb pres pendingMessages].
    destruct (0 <? pendingMessages (pres s)) eqn:Hp.
    + apply Z.ltb_lt in Hp. cbn. repeat split; intros; try reflexivity; lia.
    + apply Z.ltb_ge in Hp. cbn [fst snd].
      set (s2 := mkState _ _ _ _).
      destruct (cancel_frame (nextId s) s2) as [_ Hw]. rewrite Hw.
      repeat split; intros; try reflexivity; lia.
  - intros err Hsrc Hclosed out; subst out.
    unfold resume. unfold_monad.
    destruct (Async_ReadBatch (r (pres s)) (lookupErr n (done s)) (world s))
      as [w' res]; cbn [snd] in Hsrc; subst res.
    rewrite afterSource_error, Hclosed. cbn [andb pres pendingMessages].
    destruct (0 <? pendingMessages (pres s)) eqn:Hp; cbn [fst].
    + apply Z.ltb_lt in Hp. split; intros; [lia | reflexivity].
    + apply Z.ltb_ge in Hp. split; intros; [reflexivity | lia].
  - reflexivity.
  - cbv zeta. unfold resume. unfold_monad.
    destruct (pendingMessages (pres s) <=? 0) eqn:Hp.
    + apply Z.leb_le in Hp. rewrite finish_eq. cbn [fst].
      split; intros; [reflexivity | lia].
    + apply Z.leb_gt in Hp. split; intros; [lia | reflexivity].
  - cbv zeta. unfold resume. unfold_monad.
    destruct (lookupErr n (done s)) as [e |].
    + rewrite finish_eq. cbn [fst]. split; intros; [reflexivity | congruence].
    + split; intros; [congruence | reflexivity].
  - discriminate.
  - discriminate.
Qed.

(** ** The in-flight counter *)

Lemma wrap64_add z d : wrap64 (wrap64 z + d) = wrap64 (z + d).
Proof.
  unfold wrap64.
  replace ((z + 2 ^ 63) mod 2 ^ 64 - 2 ^ 63 + d + 2 ^ 63)
    with ((z + 2 ^ 63) mod 2 ^ 64 + d) by lia.
  replace (z + d + 2 ^ 63) with ((z + 2 ^ 63) + d) by lia.
  rewrite Zplus_mod_idemp_l. reflexivity.
Qed.

Lemma net_snoc (tr : list (Event * @Output W)) eo :
  net (tr ++ [eo]) = net tr + delta eo.
Proof.
  unfold net. induction tr as [| x tr IH]; cbn; [lia |].
  cbn in IH. rewrite IH. lia.
Qed.

Lemma removeNth_length {A} (l : list A) : forall i x,
  nth_error l i = Some x -> S (List.length (removeNth i l)) = List.length l.
Proof.
  induction l as [| y l IH]; intros [| i] x H; cbn in *; try discriminate.
  - reflexivity.
  - now rewrite (IH i x H).
Qed.

Lemma Connect_frame (ctx : Context) s :
  resendMessages (pres (snd (Connect ctx s))) = resendMessages (pres s) /\
  resendInterrupt (pres (snd (Connect ctx s))) = resendInterrupt (pres s) /\
  pendingMessages (pres (snd (Connect ctx s))) = pendingMessages (pres s).
Proof.
  unfold Connect. unfold_monad.
  destruct (Async_Connect (r (pres s)) ctx (world s)) as [w' err]; cbn.
  destruct (errors_Is_ErrTypeClosed err && (0 <? pendingMessages (pres s)));
    repeat split.
Qed.

Lemma callAck_failure_interrupt (ctx : Context) f s (e : error) :
  resendInterrupt (pres (snd (callAck f ctx (Some e) s))) = resendInterrupt (pres s) /\
  forall n, resendInterrupt (pres s) = Some n ->
            lookupErr n (done (snd (callAck f ctx (Some e) s))) <> None.
Proof.
  destruct f as [g m | m]; unfold callAck; unfold_monad;
    destruct (resendInterrupt (pres s)) as [k |]; cbn;
    try (destruct (lookupErr k (done s)) eqn:Hk; cbn);
    (split; [reflexivity |]); intros n Hn; inversion Hn; subst;
    cbn; try rewrite Nat.eqb_refl; congruence.
Qed.

(** What a turn of a blocked read does to the decorator, by the place it
    was blocked at and by where it stands afterwards. *)
Lemma resume_effect blk k s out s' :
  resume blk k s = (Some out, s') ->
  resendMessages (pres s') = resendMessages (pres s) /\
  resendInterrupt (pres s') = resendInterrupt (pres s) /\
  match out with
  | inl (inl _) =>
      match blk with
      | InBackoff _ _ _ =>
          k = TimerFired /\ pendingMessages (pres s') = pendingMessages (pres s)
      | InSourceRead _ =>
          k = SourceReturned /\
          pendingMessages (pres s') = wrap64 (pendingMessages (pres s) + 1)
      | InDrain _ => False
      end
  | inl (inr err) =>
      pendingMessages (pres s') = pendingMessages (pres s) /\
      match blk with
      | InDrain _ => err = ErrTypeClosed \/ err = ErrTimeout
      | _ => True
      end
  | inr blk' =>
      pendingMessages (pres s') = pendingMessages (pres s) /\
      blk' = InDrain (ctxOf blk) /\
      match blk with InBackoff _ _ _ => False | _ => True end
  end.
Proof.
  destruct blk as [n e tout | n | n]; destruct k; cbn [resume]; unfold_monad;
    try discriminate.
  - (* backoff, timer *)
    destruct (deliver_spec n e s) as (b & f & s3 & Heq & _ & _ & Hpres & _).
    rewrite Heq. intros H; inversion H; subst. rewrite Hpres. repeat split.
  - (* backoff, context *)
    destruct (lookupErr n (done s)) as [err |] eqn:Hn; [| discriminate].
    rewrite finish_eq. intros H; inversion H; subst.
    destruct (cancel_frame n s) as [Hp _]. rewrite Hp. repeat split.
  - (* source *)
    destruct (Async_ReadBatch (r (pres s)) (lookupErr n (done s)) (world s))
      as [w' [[b aFn] | err]].
    + unfold afterSource. unfold_monad.
      set (s1 := mkState _ _ _ _).
      destruct (deliver_spec n (newResendMsg b aFn) s1)
        as (b' & f & s3 & Heq & _ & _ & Hpres & _).
      rewrite Heq. intros H; inversion H; subst. rewrite Hpres. subst s1; cbn.
      repeat split.
    + rewrite afterSource_error. cbn [pres pendingMessages].
      destruct (isTypeClosed err && (0 <? pendingMessages (pres s))).
      * intros H; inversion H; subst. cbn. repeat split.
      * set (s1 := mkState _ _ _ _).
        destruct (cancel_frame n s1) as [Hp _].
        intros H; inversion H; subst. rewrite Hp. subst s1; cbn. repeat split.
  - (* drain, timer *)
    destruct (pendingMessages (pres s) <=? 0).
    + rewrite finish_eq. intros H; inversion H; subst.
      destruct (cancel_frame n s) as [Hp _]. rewrite Hp. repeat split. now left.
    + intros H; inversion H; subst. repeat split.
  - (* drain, context *)
    destruct (lookupErr n (done s)) as [err |] eqn:Hn; [| discriminate].
    rewrite finish_eq. intros H; inversion H; subst.
    destruct (cancel_frame n s) as [Hp _]. rewrite Hp. repeat split. now right.
Qed.

(** What the entry of [ReadBatch] does to the decorator. *)
Lemma ReadBatch_effect (parent : Context) s :
  let out := ReadBatch parent s in
  pendingMessages (pres (snd out)) = pendingMessages (pres s) /\
  match fst out with
  | inl (inl _) | inr (InBackoff _ _ _) =>
      S (List.length (resendMessages (pres (snd out)))) =
        List.length (resendMessages (pres s))
  | inl (inr _) => resendMessages (pres (snd out)) = resendMessages (pres s)
  | inr (InSourceRead n) | inr (InDrain n) =>
      resendMessages (pres (snd out)) = resendMessages (pres s) /\
      resendInterrupt (pres (snd out)) = Some n
  end.
Proof.
  cbv zeta. destruct (resendMessages (pres s)) as [| e rest] eqn:Hq.
  - rewrite (ReadBatch_empty parent s Hq). cbv zeta.
    destruct (0 <? inputClosed (pres s)).
    + rewrite afterSource_error. cbn [isTypeClosed andb pres pendingMessages].
      destruct (0 <? pendingMessages (pres s)); cbn [fst snd].
      * cbn. repeat split.
      * set (s2 := mkState _ _ _ _).
        destruct (cancel_frame (nextId s) s2) as [Hp _]. rewrite Hp.
        subst s2; cbn. repeat split.
    + cbn. repeat split.
  - destruct (ReadBatch_front parent s e rest Hq) as (H1 & _ & H3 & _ & _ & e' & H6 & _).
    split; [exact H3 |].
    destruct (fst (ReadBatch parent s)) as [[[b f] | err] | [n m tout | n | n]];
      cbn in H6; try discriminate; rewrite H1; reflexivity.
Qed.

Lemma step_effect e (sys sys' : @Sys W) o :
  step e sys = Some (sys', o) ->
  interruptInstalled sys ->
  pendingMessages (pres (st sys')) = bump (delta (e, o)) (pendingMessages (pres (st sys))) /\
  owed sys' <= owed sys + delta (e, o) /\
  interruptInstalled sys'.
Proof.
  intros Hstep Hint. destruct sys as [s rd hs].
  unfold interruptInstalled, owed, heldByReader in *. cbn [st reader handed] in *.
  destruct e as [ctx | ctx | parent | err | k | i ctx res]; cbn [step st reader handed] in Hstep.
  - (* Connect *)
    destruct (Connect_frame ctx s) as (Hq & Hi & Hp).
    destruct (Connect ctx s) as [err s1]; cbn [snd] in *.
    inversion Hstep; subst; cbn [st reader handed delta bump Z.eqb].
    rewrite Hq, Hi, Hp. repeat split; [lia | exact Hint].
  - (* Close *)
    unfold Close in Hstep. unfold_monad.
    destruct (Async_Close (r (pres s)) ctx (world s)) as [w' err].
    inversion Hstep; subst; cbn [st reader handed pres delta bump Z.eqb].
    repeat split; [lia | exact Hint].
  - (* ReadBatch *)
    destruct rd as [blk |]; [discriminate |].
    pose proof (ReadBatch_effect parent s) as Heff. cbv zeta in Heff.
    destruct (ReadBatch parent s) as [out s1]; cbn [fst snd] in *.
    destruct Heff as [Hp Hout].
    destruct out as [[[b f] | err] | [n m tout | n | n]];
      cbn [settle] in Hstep; inversion Hstep; subst;
      cbn [st reader handed delta bump Z.eqb];
      (split; [exact Hp |]); (split; [| intros n' [Hn' | Hn']; try discriminate]).
    + rewrite length_app; cbn [List.length]. lia.
    + rewrite Hout. lia.
    + lia.
    + destruct Hout as [Hq _]. rewrite Hq. lia.
    + destruct Hout as [_ Hi]. now inversion Hn'; subst.
    + destruct Hout as [Hq _]. rewrite Hq. lia.
    + destruct Hout as [_ Hi]. now inversion Hn'; subst.
  - (* the caller's scope ends *)
    destruct rd as [blk |]; [| discriminate].
    unfold endCtx in Hstep.
    destruct (lookupErr (ctxOf blk) (done s)); inversion Hstep; subst;
      cbn [st reader handed pres delta bump Z.eqb];
      (repeat split; [lia | exact Hint]).
  - (* a blocked read takes a turn *)
    destruct rd as [blk |]; [| discriminate].
    destruct (resume blk k s) as [[out |] s1] eqn:Hres; [| discriminate].
    destruct (resume_effect blk k s out s1 Hres) as (Hq & Hi & Hout).
    destruct out as [[[b f] | err] | blk'];
      cbn [settle] in Hstep; inversion Hstep; subst;
      cbn [st reader handed].
    + destruct blk as [n m tout | n | n]; [| | contradiction].
      * destruct Hout as [-> Hp]. cbn [delta bump Z.eqb].
        rewrite Hq, Hp, length_app; cbn [List.length].
        repeat split; [lia |]. intros n' [Hn' | Hn']; discriminate.
      * destruct Hout as [-> Hp]. cbn [delta bump Z.eqb].
        rewrite Hq, Hp, length_app; cbn [List.length].
        repeat split; [lia |]. intros n' [Hn' | Hn']; discriminate.
    + destruct Hout as [Hp _].
      assert (Hd : delta (WakeRead k, @ReadReturned W (inr err)) = 0)
        by (destruct k; reflexivity).
      rewrite Hd, Hq, Hp. cbn [bump Z.eqb].
      repeat split; [destruct blk; lia |]. intros n' [Hn' | Hn']; discriminate.
    + destruct Hout as (Hp & -> & Hblk).
      assert (Hd : delta (WakeRead k, @Silent W) = 0) by (destruct k; reflexivity).
      rewrite Hd, Hq, Hp, Hi. cbn [bump Z.eqb].
      repeat split; [destruct blk; try contradiction; lia |].
      intros n' Hn'. apply Hint.
      destruct blk as [n m tout | n | n]; [contradiction | |]; cbn [ctxOf] in Hn';
        destruct Hn' as [Hn' | Hn']; inversion Hn'; subst; auto.
  - (* a callback is called *)
    destruct (nth_error hs i) as [f |] eqn:Hf; [| discriminate].
    pose proof (removeNth_length hs i f Hf) as Hlen.
    destruct res as [err |].
    + destruct (callAck_failure ctx f s err) as (_ & _ & Hp & _ & m' & Hq & _).
      destruct (callAck_failure_interrupt ctx f s err) as [Hi _].
      destruct (callAck f ctx (Some err) s) as [out s1]; cbn [snd] in *.
      inversion Hstep; subst; cbn [st reader handed delta bump Z.eqb].
      rewrite Hq, Hp, Hi, length_app; cbn [List.length].
      repeat split; [lia | exact Hint].
    + rewrite callAck_success in Hstep.
      inversion Hstep; subst; cbn [st reader handed pres delta bump Z.eqb
                                   resendMessages resendInterrupt pendingMessages].
      repeat split; [lia | exact Hint].
Qed.

Lemma Run_invariant src w tr (sys : @Sys W) :
  Run src w tr sys ->
  pendingMessages (pres (st sys)) = wrap64 (net tr) /\
  owed sys <= net tr /\
  interruptInstalled sys.
Proof.
  induction 1 as [| tr s e s' o Hrun IH Hstep].
  - cbn. repeat split; [reflexivity | intros n [H | H]; discriminate].
  - destruct IH as (Hp & Hown & Hint).
    destruct (step_effect e s s' o Hstep Hint) as (Hp' & Hown' & Hint').
    rewrite net_snoc. repeat split; [| lia | exact Hint'].
    rewrite Hp', Hp. unfold bump.
    destruct (delta (e, o) =? 0) eqn:Hd.
    + apply Z.eqb_eq in Hd. rewrite Hd. f_equal. lia.
    + apply wrap64_add.
Qed.

Lemma replay_Run src w es : forall tr0 (s0 s : @Sys W) tr,
  Run src w tr0 s0 ->
  replay es s0 = Some (s, tr) ->
  Run src w (tr0 ++ tr) s.
Proof.
  induction es as [| e es IH]; intros tr0 s0 s tr Hrun Hrep; cbn in Hrep.
  - inversion Hrep; subst. now rewrite app_nil_r.
  - destruct (step e s0) as [[s1 o] |] eqn:Hstep; [| discriminate].
    destruct (replay es s1) as [[s2 tr'] |] eqn:Hrest; [| discriminate].
    inversion Hrep; subst.
    replace (tr0 ++ (e, o) :: tr') with ((tr0 ++ [(e, o)]) ++ tr')
      by (rewrite <- app_assoc; reflexivity).
    eapply IH; [| exact Hrest].
    econstructor; eassumption.
Qed.

(** C6: in every state the system reaches, as long as the number of
    batches delivered fresh and not yet acknowledged with success fits in
    the counter, the in-flight counter is that number and is at least the
    length of the resend queue (it also covers the callbacks handed out and
    an entry held through a backoff sleep).  Every step changes the
    counter by the rule: plus one when a read delivers a batch that came
    from the source, minus one when a wrapped callback is called with
    success, nothing otherwise; serving a queued entry, in particular,
    leaves it alone. *)
Theorem in_flight_counter_covers_queue src w tr (sys : @Sys W) :
  Run src w tr sys ->
  (net tr <= max_int64 ->
     pendingMessages (pres (st sys)) = net tr /\
     Z.of_nat (List.length (resendMessages (pres (st sys))))
       <= pendingMessages (pres (st sys)) /\
     owed sys <= pendingMessages (pres (st sys))) /\
  (forall e sys' o,
     step e sys = Some (sys', o) ->
     pendingMessages (pres (st sys')) =
       bump (delta (e, o)) (pendingMessages (pres (st sys))) /\
     (forall parent, e = CallReadBatch parent -> delta (e, o) = 0) /\
     (forall b f, e = WakeRead TimerFired -> o = ReadReturned (inl (b, f)) ->
                  delta (e, o) = 0) /\
     (forall b f, e = WakeRead SourceReturned -> o = ReadReturned (inl (b, f)) ->
                  delta (e, o) = 1) /\
     (forall i ctx, e = CallAckFn i ctx None -> delta (e, o) = -1) /\
     (forall i ctx err, e = CallAckFn i ctx (Some err) -> delta (e, o) = 0)).
Proof.
  intros Hrun. destruct (Run_invariant src w tr sys Hrun) as (Hp & Hown & Hint).
  split.
  - intros Hmax.
    assert (H0 : 0 <= owed sys) by (unfold owed; lia).
    assert (Hnet : wrap64 (net tr) = net tr).
    { apply wrap64_id. unfold min_int64, max_int64 in *. lia. }
    rewrite Hp, Hnet. repeat split; [| lia].
    unfold owed in Hown. lia.
  - intros e sys' o Hstep.
    destruct (step_effect e sys sys' o Hstep Hint) as (Hp' & _ & _).
    split; [exact Hp' |].
    repeat split; intros; subst; reflexivity.
Qed.

(** ** Cancellation while draining *)

Lemma drain_context_ended n s (hs : list (@WrappedAck W)) :
  lookupErr n (done s) <> None ->
  step (WakeRead CtxDone) (mkSys s (Some (InDrain n)) hs) =
    Some (mkSys (snd (cancel n s)) None hs, ReadReturned (inr ErrTimeout)).
Proof.
  intros Hdone. cbn [step reader st handed resume]. unfold bind, ctxErr, ret.
  destruct (lookupErr n (done s)) as [e |] eqn:Hl; [| congruence].
  rewrite finish_eq. reflexivity.
Qed.

(** C9: in every state the system reaches with a read in the drain loop,
    the interrupt handle is the cancel function of that read's context.
    Once the caller's scope has ended, and likewise once a callback called
    with a failure has appended its entry and fired the handle, the
    [ctx.Done()] case of the loop can be taken, and taking it returns the
    timeout error; the entry enqueued by the callback stays in the queue.
    No turn of the loop returns anything but the timeout error or the
    closed error. *)
Theorem cancellation_while_draining_times_out src w tr (sys : @Sys W) n :
  Run src w tr sys ->
  reader sys = Some (InDrain n) ->
  resendInterrupt (pres (st sys)) = Some n /\
  (forall err sys1 o1,
     step (ParentDone err) sys = Some (sys1, o1) ->
     reader sys1 = Some (InDrain n) /\
     exists sys2,
       step (WakeRead CtxDone) sys1 = Some (sys2, ReadReturned (inr ErrTimeout)) /\
       reader sys2 = None) /\
  (forall i (ctx : Context) (err : error) sys1 o1,
     step (CallAckFn i ctx (Some err)) sys = Some (sys1, o1) ->
     reader sys1 = Some (InDrain n) /\
     List.length (resendMessages (pres (st sys1))) =
       S (List.length (resendMessages (pres (st sys)))) /\
     exists sys2,
       step (WakeRead CtxDone) sys1 = Some (sys2, ReadReturned (inr ErrTimeout)) /\
       reader sys2 = None /\
       resendMessages (pres (st sys2)) = resendMessages (pres (st sys1))) /\
  (forall k sys2 o,
     step (WakeRead k) sys = Some (sys2, o) ->
     o = Silent \/ o = ReadReturned (inr ErrTypeClosed) \/
     o = ReadReturned (inr ErrTimeout)).
Proof.
  intros Hrun Hrd.
  destruct (Run_invariant src w tr sys Hrun) as (_ & _ & Hint).
  assert (Hi : resendInterrupt (pres (st sys)) = Some n) by (apply Hint; now right).
  destruct sys as [s rd hs]. cbn [st reader handed] in *. subst rd.
  split; [exact Hi | split; [| split]].
  - intros err sys1 o1 Hstep. cbn [step reader st handed ctxOf] in Hstep.
    destruct (endCtx n err s) as [u s1] eqn:Hend.
    inversion Hstep; subst. cbn [reader]. split; [reflexivity |].
    eexists. split; [apply drain_context_ended | reflexivity].
    unfold endCtx in Hend.
    destruct (lookupErr n (done s)) as [e0 |] eqn:Hl; inversion Hend; subst; cbn.
    + congruence.
    + rewrite Nat.eqb_refl. discriminate.
  - intros i ctx err sys1 o1 Hstep. cbn [step reader st handed] in Hstep.
    destruct (nth_error hs i) as [f |]; [| discriminate].
    destruct (callAck_failure ctx f s err) as (_ & _ & _ & _ & m' & Hq & _).
    destruct (callAck_failure_interrupt ctx f s err) as [_ Hdone].
    specialize (Hdone n Hi).
    destruct (callAck f ctx (Some err) s) as [out s1]; cbn [snd] in *.
    inversion Hstep; subst. cbn [reader st].
    split; [reflexivity | split].
    + rewrite Hq, length_app. cbn [List.length]. lia.
    + eexists. split; [apply drain_context_ended; exact Hdone |].
      cbn [reader st]. split; [reflexivity |].
      destruct (cancel_frame n s1) as [Hp _]. now rewrite Hp.
  - intros k sys2 o Hstep. cbn [step reader st handed] in Hstep.
    destruct (resume (InDrain n) k s) as [[out |] s1] eqn:Hres; [| discriminate].
    pose proof (resume_effect _ _ _ _ _ Hres) as (_ & _ & Hout).
    destruct out as [[[b f] | err] | blk']; cbn [settle] in Hstep;
      inversion Hstep; subst.
    + contradiction.
    + destruct Hout as [_ [-> | ->]]; auto.
    + now left.
Qed.

(** ** Backoff *)

Lemma toDuration_nonneg x : (0 <= x)%Q -> toDuration x = Qfloor x.
Proof.
  intros H. unfold toDuration.
  destruct (Qle_bool 0 x) eqn:E; [reflexivity |].
  apply Qle_bool_iff in H. congruence.
Qed.

(** With the default randomisation factor a delay lies within half of the
    interval it is drawn around, whatever the draw. *)
Lemma jitter_bounds (rnd : Q) (c : Z) :
  (0 <= rnd)%Q -> (rnd < 1)%Q -> 0 <= c ->
  jittered c (getRandomValueFromInterval (1 # 2) rnd c).
Proof.
  intros Hr0 Hr1 Hc.
  unfold getRandomValueFromInterval.
  change (Qeq_bool (1 # 2) 0) with false. cbv iota zeta.
  set (x := (_ + _ * _)%Q).
  assert (Hc' : (0 <= inject_Z c)%Q)
    by (change 0%Q with (inject_Z 0); rewrite <- Zle_Qle; exact Hc).
  assert (Hp0 : (0 <= rnd * inject_Z c)%Q) by (apply Qmult_le_0_compat; assumption).
  assert (Hp1 : (rnd * inject_Z c <= inject_Z c)%Q).
  { rewrite <- (Qmult_1_l (inject_Z c)) at 2.
    apply Qmult_le_compat_r; [apply Qlt_le_weak |]; assumption. }
  assert (Hlo : ((1 # 2) * inject_Z c <= x)%Q) by (subst x; lra).
  assert (Hhi : (x < (3 # 2) * inject_Z c + 1)%Q) by (subst x; lra).
  assert (Hx0 : (0 <= x)%Q) by lra.
  rewrite (toDuration_nonneg x Hx0).
  pose proof (Qfloor_le x) as Hf1. pose proof (Qlt_floor x) as Hf2.
  set (d := Qfloor x) in *.
  rewrite inject_Z_plus in Hf2. change (inject_Z 1) with 1%Q in Hf2.
  unfold jittered. split.
  - assert (H : (inject_Z c < inject_Z (2 * d + 2))%Q).
    { rewrite inject_Z_plus, inject_Z_mult.
      change (inject_Z 2) with (2 # 1)%Q. lra. }
    rewrite <- Zlt_Qlt in H. lia.
  - assert (H : (inject_Z (2 * d) < inject_Z (3 * c + 2))%Q).
    { rewrite inject_Z_plus, !inject_Z_mult.
      change (inject_Z 2) with (2 # 1)%Q. change (inject_Z 3) with (3 # 1)%Q. lra. }
    rewrite <- Zlt_Qlt in H. lia.
Qed.

Lemma incrementCurrentInterval_resendPolicy b :
  resendPolicy b ->
  currentInterval (incrementCurrentInterval b) =
    Z.min (currentInterval b * 11 / 10) Second.
Proof.
  intros (_ & Hm & Hx & _ & Hc).
  unfold incrementCurrentInterval. cbn [currentInterval]. rewrite Hm, Hx.
  assert (Hfl : Qfloor (inject_Z (currentInterval b) * (11 # 10)) =
                currentInterval b * 11 / 10) by reflexivity.
  destruct (Qle_bool _ _) eqn:E.
  - apply Qle_bool_iff in E. unfold Qle in E. cbn in E.
    unfold Second in *.
    assert (1000000000 <= currentInterval b * 11 / 10)
      by (apply Z.div_le_lower_bound; lia).
    lia.
  - assert (E' : ~ (inject_Z Second / (11 # 10) <= inject_Z (currentInterval b))%Q).
    { intros H. apply Qle_bool_iff in H. congruence. }
    unfold Qle in E'. cbn in E'.
    rewrite toDuration_nonneg.
    + rewrite Hfl. unfold Second in *.
      assert (currentInterval b * 11 / 10 <= 1000000000); [| lia].
      apply Z.lt_succ_r. apply Z.div_lt_upper_bound; lia.
    + unfold Qle. cbn. unfold Millisecond in Hc. lia.
Qed.

Lemma NextBackOff_resendPolicy b :
  resendPolicy b ->
  resendPolicy (snd (NextBackOff b)) /\
  jittered (currentInterval b) (fst (NextBackOff b)) /\
  0 < fst (NextBackOff b) /\
  currentInterval (snd (NextBackOff b)) =
    Z.min (currentInterval b * 11 / 10) Second /\
  calls (snd (NextBackOff b)) = S (calls b).
Proof.
  intros Hb. pose proof (incrementCurrentInterval_resendPolicy b Hb) as Hinc.
  destruct Hb as (Hr & Hm & Hx & He & Hc).
  destruct (Float64_range (calls b)) as [Hr0 Hr1].
  assert (Hj : jittered (currentInterval b) (fst (NextBackOff b))).
  { unfold NextBackOff. rewrite He, Hr. cbn [Z.eqb negb andb fst].
    apply jitter_bounds; try assumption. unfold Millisecond in Hc. lia. }
  assert (Hdiv : currentInterval b <= currentInterval b * 11 / 10).
  { unfold Millisecond in Hc. apply Z.div_le_lower_bound; lia. }
  unfold NextBackOff in *. rewrite He in *. cbn [Z.eqb negb andb fst snd] in *.
  unfold resendPolicy. cbn [RandomizationFactor Multiplier MaxInterval MaxElapsedTime
                             currentInterval calls].
  rewrite Hinc.
  unfold incrementCurrentInterval;
    cbn [RandomizationFactor Multiplier MaxInterval MaxElapsedTime calls].
  unfold jittered in Hj. unfold Millisecond, Second in *.
  repeat split; try assumption; try lia.
Qed.

Lemma policyAfter_resendPolicy k b :
  resendPolicy b -> resendPolicy (policyAfter k b).
Proof.
  intros Hb. induction k as [| k IH]; cbn; [exact Hb |].
  now apply NextBackOff_resendPolicy.
Qed.

Lemma newResendMsg_policy (b : Batch) (f0 : @AsyncAckFn W) :
  resendPolicy (boff (newResendMsg b f0)) /\
  currentInterval (boff (newResendMsg b f0)) = 500 * Millisecond /\
  attempts (newResendMsg b f0) = 0.
Proof.
  cbn. unfold resendPolicy; cbn. repeat split; unfold Millisecond, Second; lia.
Qed.

(** One round of a lone entry that fails again. *)
Lemma failingRound_lone (parent : Context) (err : error) s e :
  resendMessages (pres s) = [e] ->
  0 <= attempts e < max_int64 ->
  resendPolicy (boff e) ->
  exists e',
    resendMessages (pres (snd (failingRound parent err s))) = [e'] /\
    attempts e' = attempts e + 1 /\
    (attempts e < 2 ->
       fst (failingRound parent err s) = None /\ boff e' = boff e) /\
    (2 <= attempts e ->
       fst (failingRound parent err s) = Some (fst (NextBackOff (boff e))) /\
       boff e' = snd (NextBackOff (boff e))).
Proof.
  intros Hq Ha Hb.
  destruct (failingRound parent err s) as [d sF] eqn:HR. cbn [fst snd].
  unfold failingRound in HR. unfold bind at 1 in HR.
  rewrite (ReadBatch_pop parent s e [] Hq) in HR. cbv zeta in HR. cbn [attempts] in HR.
  set (s2 := mkState _ _ _ _) in HR.
  assert (Hw : wrap64 (attempts e + 1) = attempts e + 1).
  { apply wrap64_id. unfold min_int64, max_int64 in *. lia. }
  rewrite Hw in HR.
  assert (Htail : forall m f s3,
            entryOf f = m -> attempts m = attempts e + 1 ->
            resendMessages (pres s3) = [] ->
            exists e',
              resendMessages (pres (snd (callAck f None (Some err) s3))) = [e'] /\
              attempts e' = attempts e + 1 /\ boff e' = boff m).
  { intros m f s3 Hf Hm Hq3.
    destruct (callAck_failure None f s3 err) as (_ & _ & _ & _ & m' & Hq' & _ & Hat & Hbo).
    exists m'. rewrite Hq', Hq3, Hat, Hbo, Hf. repeat split. exact Hm. }
  destruct (2 <? attempts e + 1) eqn:Hlt.
  - apply Z.ltb_lt in Hlt.
    destruct (NextBackOff_resendPolicy (boff e) Hb) as (_ & _ & Hpos & _).
    destruct (NextBackOff (boff e)) as [tout b'] eqn:Hnb; cbn [fst snd] in *.
    replace (0 <? tout) with true in HR
      by (symmetry; apply Z.ltb_lt; exact Hpos).
    cbn [resume] in HR. unfold bind at 1 2 in HR. unfold ret at 1 in HR.
    set (m := mkResend b' _ _ _) in HR.
    destruct (deliver_spec (nextId s) m s2) as (b & f & s3 & Heq & Hf & _ & Hpres & _).
    rewrite Heq in HR. unfold bind, ret in HR.
    destruct (Htail m f s3 Hf eq_refl) as (e' & H1 & H3 & H4);
      [rewrite Hpres; reflexivity |].
    destruct (callAck f None (Some err) s3) as [o s4]; cbn [fst snd] in *.
    inversion HR; subst d sF.
    exists e'. rewrite H1, H3, H4. subst m; cbn [boff].
    repeat split; intros; lia.
  - apply Z.ltb_ge in Hlt.
    set (m := mkResend (boff e) _ _ _) in HR.
    destruct (deliver_spec (nextId s) m s2) as (b & f & s3 & Heq & Hf & _ & Hpres & _).
    rewrite Heq in HR. unfold bind, ret in HR.
    destruct (Htail m f s3 Hf eq_refl) as (e' & H1 & H3 & H4);
      [rewrite Hpres; reflexivity |].
    destruct (callAck f None (Some err) s3) as [o s4]; cbn [fst snd] in *.
    inversion HR; subst d sF.
    exists e'. rewrite H1, H3, H4. subst m; cbn [boff].
    repeat split; intros; lia.
Qed.

Lemma failingRounds_S (parent : Context) (err : error) k s :
  failingRounds (S k) parent err s =
    (fst (failingRound parent err s)
       :: fst (failingRounds k parent err (snd (failingRound parent err s))),
     snd (failingRounds k parent err (snd (failingRound parent err s)))).
Proof.
  cbn [failingRounds]. unfold bind, ret.
  destruct (failingRound parent err s) as [d s1]; cbn [fst snd].
  destruct (failingRounds k parent err s1); reflexivity.
Qed.

Lemma failingRounds_lone (parent : Context) (err : error) b n : forall j s e,
  resendPolicy b ->
  resendMessages (pres s) = [e] ->
  attempts e = Z.of_nat j ->
  boff e = policyAfter (j - 2) b ->
  Z.of_nat (j + n) <= max_int64 ->
  fst (failingRounds n parent err s) = map (delayBefore b) (seq j n).
Proof.
  induction n as [| n IH]; intros j s e Hb Hq Ha Hbo Hmax; [reflexivity |].
  rewrite failingRounds_S. cbn [fst seq map].
  assert (Hpol : resendPolicy (boff e))
    by (rewrite Hbo; now apply policyAfter_resendPolicy).
  destruct (failingRound_lone parent err s e Hq) as (e' & Hq' & Ha' & Hlow & Hhigh);
    [lia | exact Hpol |].
  rewrite (IH (S j) (snd (failingRound parent err s)) e' Hb Hq').
  - f_equal. unfold delayBefore.
    destruct (j <? 2)%nat eqn:Hj.
    + apply Nat.ltb_lt in Hj. apply Hlow. lia.
    + apply Nat.ltb_ge in Hj. destruct Hhigh as [Hd _]; [lia |].
      rewrite Hd, Hbo. reflexivity.
  - lia.
  - destruct (Nat.lt_ge_cases j 2) as [Hj | Hj].
    + destruct Hlow as [_ Hsame]; [lia |].
      rewrite Hsame, Hbo.
      replace (j - 2)%nat with 0%nat by lia.
      replace (S j - 2)%nat with 0%nat by lia. reflexivity.
    + destruct Hhigh as [_ Hnext]; [lia |].
      rewrite Hnext, Hbo.
      replace (S j - 2)%nat with (S (j - 2)) by lia. reflexivity.
  - lia.
Qed.

(** C7: an entry made by [newResendMsg] that fails again and again.
    [newResendMsg] sets an initial interval of one millisecond, a ceiling
    of one second, a multiplier of 11/10 and no limit on the elapsed
    time, but it sets them on a policy whose constructor has already
    fixed the interval the first delay is drawn around at its default of
    500 ms, and it leaves the default randomisation of one half in force.
    So the first two redeliveries are returned without a wait and the
    third waits between 250 and 750 ms, never the one millisecond that
    was set.  Every later delay lies within half of an interval that
    starts at 500 ms and grows by 11/10 up to one second; a delay can be
    shorter than the one before (with draws of 0.4 and then 0.25 the
    delays are 450 ms and 412.5 ms); none is the stop value.  A wait
    whose context ends is abandoned and the read returns the context's
    error. *)
Theorem third_redelivery_waits_near_half_a_second
    (b : Batch) (f0 : @AsyncAckFn W) (src : @Async W) (w : W)
    (parent : Context) (err : error) :
  let policy := boff (newResendMsg b f0) in
  let s0 := mkState (mkPreserver [newResendMsg b f0] None 1 0 src) w [] 0 in
  (InitialInterval policy = Millisecond /\ MaxInterval policy = Second /\
   Multiplier policy = (11 # 10)%Q /\ MaxElapsedTime policy = 0) /\
  (currentInterval policy = 500 * Millisecond /\
   RandomizationFactor policy = (1 # 2)%Q) /\
  fst (failingRounds 3 parent err s0) = [None; None; Some (nthDelay 0 policy)] /\
  250 * Millisecond <= nthDelay 0 policy <= 750 * Millisecond /\
  (forall k,
     jittered (currentInterval (policyAfter k policy)) (nthDelay k policy) /\
     currentInterval (policyAfter (S k) policy) =
       Z.min (currentInterval (policyAfter k policy) * 11 / 10) Second /\
     0 < nthDelay k policy /\
     nthDelay k policy <> Stop) /\
  (@nthDelay demoChance 0 policy = 450000000 /\
   @nthDelay demoChance 1 policy = 412500000) /\
  (forall n e tout s,
     (forall err', lookupErr n (done s) = Some err' ->
                   fst (resume (InBackoff n e tout) CtxDone s) = Some (inl (inr err'))) /\
     (lookupErr n (done s) = None ->
        resume (InBackoff n e tout) CtxDone s = (None, s))).
Proof.
  cbv zeta.
  destruct (newResendMsg_policy b f0) as (Hpol & Hcur & Hatt).
  set (policy := boff (newResendMsg b f0)) in *.
  assert (Hstep : forall k,
            jittered (currentInterval (policyAfter k policy)) (nthDelay k policy) /\
            currentInterval (policyAfter (S k) policy) =
              Z.min (currentInterval (policyAfter k policy) * 11 / 10) Second /\
            0 < nthDelay k policy).
  { intros k. unfold nthDelay. cbn [policyAfter].
    destruct (NextBackOff_resendPolicy (policyAfter k policy)) as (_ & Hj & Hpos & Hnext & _);
      [now apply policyAfter_resendPolicy |].
    split; [exact Hj | split; [exact Hnext | exact Hpos]]. }
  split; [repeat split |]. split; [split; [exact Hcur | reflexivity] |].
  split; [| split; [| split; [| split]]].
  - apply (failingRounds_lone parent err policy 3 0%nat _ (newResendMsg b f0));
      try assumption; try reflexivity.
    unfold max_int64. cbn. lia.
  - destruct (Hstep 0%nat) as ((H1 & H2) & _). cbn [policyAfter] in H1, H2.
    rewrite Hcur in H1, H2. unfold Millisecond in *. lia.
  - intros k. destruct (Hstep k) as (Hj & Hnext & Hpos).
    split; [exact Hj | split; [exact Hnext | split; [exact Hpos |]]].
    unfold Stop. lia.
  - split; vm_compute; reflexivity.
  - intros n e tout s. split.
    + intros err' Herr. cbn [resume]. unfold bind, ctxErr, ret. rewrite Herr.
      rewrite finish_eq. reflexivity.
    + intros Hlive. cbn [resume]. unfold bind, ctxErr, ret. now rewrite Hlive.
Qed.

(** ** What is delivered *)




End Properties.

(** * Worked instances *)

Section Instances.

#[local] Existing Instance demoChance.

(** A three-part batch whose callback is told that only the part delivered
    second failed: the entry queued for retry holds exactly the part that
    was second in the original batch. *)
Lemma partial_failure_witness :
  Len (msg entryThree) <> 1 /\
  exists m',
    resendMessages
      (pres (snd (callAck (snd (fst (wrapAckFn entryThree idle))) None
                          (Some secondFailed) idle))) = [m'] /\
    msg m' = [part 11] /\
    ackFn m' = ackFn entryThree.
Proof.
  assert (Hm : Len (msg entryThree) <> 1) by (vm_compute; discriminate).
  split; [exact Hm |].
  destruct (partial_failure_retries_located_parts entryThree idle Hm) as (_ & _ & Hc).
  destruct (Hc None secondFailed idle) as ((m' & Hq & Hmsg & Hack & _) & Hloc & _).
  exists m'. split; [exact Hq |]. split; [| exact Hack].
  rewrite Hmsg. rewrite (Hloc 1 _ eq_refl).
  - reflexivity.
  - reflexivity.
  - constructor; [vm_compute; discriminate | constructor].
  - vm_compute; discriminate.
Defined.

(** With one batch in flight, success takes the counter to zero and a
    failure returns nil. *)
Lemma wrapped_ack_witness :
  min_int64 < 1 <= max_int64 /\
  pendingMessages
    (pres (snd (callAck (SingleAck entryOne) None None (withPreserver [] 1 0)))) = 0 /\
  fst (fst (callAck (SingleAck entryOne) None (Some boom) (withPreserver [] 1 0))) = None.
Proof.
  assert (Hr : min_int64 < 1 <= max_int64) by (split; [reflexivity | discriminate]).
  destruct (wrapped_ack_absorbs_failure_forwards_success
              None (SingleAck entryOne) (withPreserver [] 1 0)) as [Hfail Hok].
  destruct (Hfail boom) as (Hnil & _).
  destruct Hok as (_ & _ & _ & Hdec & _).
  split; [exact Hr |]. split; [exact (Hdec Hr) | exact Hnil].
Defined.

(** Two entries queued: the read takes the first and leaves the second. *)
Lemma fifo_witness :
  resendMessages (pres (withPreserver [entryThree; entryOne] 2 0)) =
    [entryThree; entryOne] /\
  resendMessages
    (pres (snd (ReadBatch None (withPreserver [entryThree; entryOne] 2 0)))) =
    [entryOne] /\
  world (snd (ReadBatch None (withPreserver [entryThree; entryOne] 2 0))) =
    mkWorld [] [].
Proof.
  destruct (retries_served_first_in_fifo_order
              None (withPreserver [entryThree; entryOne] 2 0)) as [Hfront _].
  destruct (Hfront entryThree [entryOne] eq_refl) as (H1 & _ & H3 & _).
  split; [reflexivity |]. split; [exact H1 | exact H3].
Defined.

(** With the first batch queued for its third redelivery in front of the
    second: the read that takes the first batch sleeps, the caller's
    scope ends, and the read returns the cancellation error; the next
    read delivers the second batch.  The front entry was removed and not
    redelivered, and the later entry was redelivered though the earlier
    one never was. *)
Lemma cancelled_backoff_loses_front_entry :
  resendMessages (pres (st bothQueued)) = [entryTwice; entryThree] /\
  ~ frontRedelivered bothQueued /\
  ~ redeliveredInOrder bothQueued.
Proof.
  assert (Hq : resendMessages (pres (st bothQueued)) = [entryTwice; entryThree])
    by (vm_compute; reflexivity).
  assert (Hrun : exists sys' b f,
            replay (CallReadBatch None :: scopeEndsThenRead) bothQueued =
              Some (sys', [(CallReadBatch None, Silent);
                           (ParentDone Canceled, Silent);
                           (WakeRead CtxDone, ReadReturned (inr Canceled));
                           (CallReadBatch None, ReadReturned (inl (b, f)))]) /\
            serves entryThree (inl (inl (b, f)))).
  { do 3 eexists. split; [vm_compute; reflexivity |].
    eexists _, _. split; [reflexivity |].
    split; [repeat split | vm_compute; reflexivity]. }
  destruct Hrun as (sys' & b & f & Hrun & Hserves).
  split; [exact Hq | split].
  - intros Hfront.
    destruct (Hfront entryTwice [entryThree] None scopeEndsThenRead sys' _
                     (inr Canceled) Hq Hrun eq_refl) as (b0 & f0 & Habs & _).
    discriminate.
  - intros Horder.
    destruct (Horder entryTwice entryThree [] [] [] _ sys' _ 1%nat (inl (b, f))
                     Hq Hrun eq_refl Hserves)
      as (j & oa & Hj & Hnth & b0 & f0 & Habs & _).
    destruct j as [| j]; [| lia].
    cbn in Hnth. congruence.
Qed.

(** Two batches in flight and a source that reports closed: [Connect]
    returns nil and sets the flag. *)
Lemma connect_witness :
  errors_Is_ErrTypeClosed
    (snd (Async_Connect source None (world (withPreserver [] 2 0)))) = true /\
  0 < pendingMessages (pres (withPreserver [] 2 0)) /\
  fst (Connect None (withPreserver [] 2 0)) = None /\
  inputClosed (pres (snd (Connect None (withPreserver [] 2 0)))) = 1.
Proof.
  pose proof (Connect_suppresses_closed_while_in_flight None (withPreserver [] 2 0)) as H.
  cbv zeta in H.
  destruct H as (_ & _ & _ & _ & _ & _ & _ & Hs & _).
  split; [reflexivity |]. split; [reflexivity |].
  apply Hs; reflexivity.
Defined.

(** The flag set and two batches in flight: the read goes to the drain
    loop without returning. *)
Lemma drain_witness :
  resendMessages (pres (withPreserver [] 2 1)) = [] /\
  0 < inputClosed (pres (withPreserver [] 2 1)) /\
  0 < pendingMessages (pres (withPreserver [] 2 1)) /\
  fst (ReadBatch None (withPreserver [] 2 1)) = inr (InDrain 0%nat).
Proof.
  destruct (drain_polls_until_acknowledged_or_timeout 0%nat (withPreserver [] 2 1))
    as (Hread & _).
  destruct (Hread None eq_refl eq_refl) as (_ & _ & Hpos).
  split; [reflexivity |]. split; [reflexivity |]. split; [reflexivity |].
  apply Hpos. reflexivity.
Defined.

Lemma after_Run (w : World) (es : list Event) :
  replay es (initSys source w) <> None ->
  Run source w (traceOf w es) (after w es).
Proof.
  intros Hsome. unfold after, traceOf.
  destruct (replay es (initSys source w)) as [[s tr] |] eqn:Hrep; [| congruence].
  apply (replay_Run source w es [] (initSys source w) s tr (Run_init source w) Hrep).
Qed.

(** A batch is read, fails, is redelivered and succeeds: at the end the
    counter is back at zero with the queue empty, and after the failure it
    was one with one entry queued. *)
Lemma in_flight_counter_witness :
  net (traceOf (mkWorld [three] []) (firstn 3 failThenSucceed)) <= max_int64 /\
  List.length
    (resendMessages (pres (st (after (mkWorld [three] []) (firstn 3 failThenSucceed)))))
    = 1%nat /\
  pendingMessages (pres (st (after (mkWorld [three] []) (firstn 3 failThenSucceed)))) = 1 /\
  pendingMessages (pres (st (after (mkWorld [three] []) failThenSucceed))) = 0.
Proof.
  assert (Hrun3 : Run source (mkWorld [three] [])
                      (traceOf (mkWorld [three] []) (firstn 3 failThenSucceed))
                      (after (mkWorld [three] []) (firstn 3 failThenSucceed)))
    by (apply after_Run; vm_compute; discriminate).
  assert (Hrun5 : Run source (mkWorld [three] [])
                      (traceOf (mkWorld [three] []) failThenSucceed)
                      (after (mkWorld [three] []) failThenSucceed))
    by (apply after_Run; vm_compute; discriminate).
  assert (Hfit3 : net (traceOf (mkWorld [three] []) (firstn 3 failThenSucceed))
                  <= max_int64) by (vm_compute; discriminate).
  assert (Hfit5 : net (traceOf (mkWorld [three] []) failThenSucceed) <= max_int64)
    by (vm_compute; discriminate).
  destruct (in_flight_counter_covers_queue _ _ _ _ Hrun3) as [H3 _].
  destruct (in_flight_counter_covers_queue _ _ _ _ Hrun5) as [H5 _].
  destruct (H3 Hfit3) as (Hp3 & _).
  destruct (H5 Hfit5) as (Hp5 & _).
  split; [exact Hfit3 |]. split; [reflexivity |].
  split; [rewrite Hp3 | rewrite Hp5]; reflexivity.
Defined.

(** A one-part batch failing five times in a row, with draws of 0.4, 0.25
    and 0.5: no wait before the first two redeliveries, then 450 ms,
    412.5 ms and 605 ms. *)
Example redelivery_delays_need_not_grow :
  fst (failingRounds 5 None boom (withPreserver [entryOne] 1 0)) =
    [None; None; Some 450000000; Some 412500000; Some 605000000].
Proof. vm_compute. reflexivity. Qed.


(** The source closes with one batch in flight and the read drains; the
    batch then fails: its entry is queued, the handle fires, and the read
    returns the timeout error. *)
Lemma drain_cancellation_witness :
  reader (after (mkWorld [one] []) closeWhileInFlight) = Some (InDrain 1%nat) /\
  exists sys1 o1 sys2,
    step (CallAckFn 0 None (Some boom)) (after (mkWorld [one] []) closeWhileInFlight) =
      Some (sys1, o1) /\
    step (WakeRead CtxDone) sys1 = Some (sys2, ReadReturned (inr ErrTimeout)) /\
    List.length (resendMessages (pres (st sys2))) = 1%nat.
Proof.
  assert (Hrun : Run source (mkWorld [one] [])
                     (traceOf (mkWorld [one] []) closeWhileInFlight)
                     (after (mkWorld [one] []) closeWhileInFlight))
    by (apply after_Run; vm_compute; discriminate).
  assert (Hrd : reader (after (mkWorld [one] []) closeWhileInFlight)
                = Some (InDrain 1%nat)) by reflexivity.
  split; [exact Hrd |].
  destruct (cancellation_while_draining_times_out _ _ _ _ _ Hrun Hrd)
    as (_ & _ & Hack & _).
  destruct (step (CallAckFn 0 None (Some boom))
                 (after (mkWorld [one] []) closeWhileInFlight))
    as [[sys1 o1] |] eqn:Hs; [| vm_compute in Hs; discriminate].
  destruct (Hack 0%nat None boom sys1 o1 Hs) as (_ & Hlen & sys2 & Hstep & _ & Hq).
  exists sys1, o1, sys2. split; [reflexivity |]. split; [exact Hstep |].
  rewrite Hq, Hlen. reflexivity.
Defined.

(** An entry on its third redelivery whose read is cut short: the caller's
    scope ends during the backoff sleep, the read returns the context's
    error, and the entry, taken off the queue on entry, is not put back. *)
Example abandoned_sleep_returns_context_error :
  let entry := mkResend (boff entryOne) 2 one (origAck 1) in
  let sys0 := mkSys (withPreserver [entry] 1 0) None [] in
  exists sys1 sys2 sys3,
    step (CallReadBatch None) sys0 = Some (sys1, Silent) /\
    timerOf (match reader sys1 with Some blk => blk | None => InDrain 0 end)
      = Some (450 * Millisecond) /\
    step (ParentDone Canceled) sys1 = Some (sys2, Silent) /\
    step (WakeRead CtxDone) sys2 = Some (sys3, ReadReturned (inr Canceled)) /\
    resendMessages (pres (st sys3)) = [] /\
    handed sys3 = [] /\
    pendingMessages (pres (st sys3)) = 1.
Proof.
  cbv zeta. do 3 eexists.
  split; [reflexivity |]. split; [reflexivity |].
  split; [reflexivity |]. split; [reflexivity |].
  repeat split.
Qed.

End Instances.

(** * Further properties of the code *)

Section Further.

Context {W : Type} {chance : Chance}.
Implicit Types (s : @State W) (m e : @asyncPreserverResend W) (f : @WrappedAck W).

Ltac unfold_ops :=
  unfold enqueue, addPending, callInterrupt, cancel, endCtx, WithCancel, fresh,
         ctxErr, liftW, putP, getP, bind, ret in *; cbn [fst snd] in *.

(** ** The single-part path *)

(** X1: a batch of exactly one part is delivered as it is stored, without
    a sort group being made for it, and its callback puts the entry back
    unchanged whatever the failure is, a structured error included. *)
Theorem single_part_batch_is_retried_whole n m s :
  Len (msg m) = 1 ->
  deliver n m s = (inl (inl (ShallowCopy (msg m), SingleAck m)), snd (cancel n s)) /\
  nextId (snd (deliver n m s)) = nextId s /\
  forall (ctx : Context) (err : error) s',
    resendMessages (pres (snd (callAck (SingleAck m) ctx (Some err) s'))) =
      resendMessages (pres s') ++ [m].
Proof.
  intros Hone. apply Z.eqb_eq in Hone.
  assert (Hd : deliver n m s =
               (inl (inl (ShallowCopy (msg m), SingleAck m)), snd (cancel n s))).
  { unfold deliver, wrapAckFn, wrapSingleAckFn. rewrite Hone.
    unfold bind at 1, ret at 1. apply finish_eq. }
  split; [exact Hd |]. split.
  - rewrite Hd. cbn [snd]. unfold cancel, endCtx.
    destruct (lookupErr n (done s)); reflexivity.
  - intros ctx err s'. unfold callAck. unfold_ops.
    destruct (resendInterrupt (pres s')) as [k |]; cbn;
      try destruct (lookupErr k (done s')); reflexivity.
Qed.

(** ** A backoff sleep that is cut short *)

(** X2: when a read has taken an entry off the queue and sleeps before
    redelivering it, and the read's context ends during the sleep, the
    read returns the context's error and leaves the decorator as it finds
    it: the entry it holds is not put back on the queue. *)
Theorem sleep_cut_short_drops_entry (parent : Context) s e rest :
  resendMessages (pres s) = e :: rest ->
  2 <= attempts e < max_int64 ->
  0 < fst (NextBackOff (boff e)) ->
  exists e',
    fst (ReadBatch parent s) =
      inr (InBackoff (nextId s) e' (fst (NextBackOff (boff e)))) /\
    popped e e' /\
    resendMessages (pres (snd (ReadBatch parent s))) = rest /\
    forall s2 (err : error),
      lookupErr (nextId s) (done s2) = Some err ->
      exists s3,
        resume (InBackoff (nextId s) e' (fst (NextBackOff (boff e)))) CtxDone s2 =
          (Some (inl (inr err)), s3) /\
        pres s3 = pres s2 /\ world s3 = world s2.
Proof.
  intros Hq Ha Htout.
  rewrite (ReadBatch_pop parent s e rest Hq). cbv zeta. cbn [attempts].
  assert (Hw : wrap64 (attempts e + 1) = attempts e + 1).
  { apply wrap64_id. unfold min_int64, max_int64 in *. lia. }
  rewrite Hw.
  replace (2 <? attempts e + 1) with true by (symmetry; apply Z.ltb_lt; lia).
  destruct (NextBackOff (boff e)) as [tout b'] eqn:Hnb. cbn [fst] in *.
  replace (0 <? tout) with true by (symmetry; now apply Z.ltb_lt).
  eexists. split; [reflexivity |]. split; [| split; [reflexivity |]].
  - unfold popped; cbn. repeat split. now symmetry.
  - intros s2 err Herr. cbn [resume]. unfold bind, ctxErr, ret. rewrite Herr.
    rewrite finish_eq. eexists. split; [reflexivity |]. apply cancel_frame.
Qed.

(** ** Errors of the source *)

Lemma resume_source_error n s (err : error) :
  snd (Async_ReadBatch (r (pres s)) (lookupErr n (done s)) (world s)) = inr err ->
  isTypeClosed err = false \/ pendingMessages (pres s) <= 0 ->
  exists s',
    resume (InSourceRead n) SourceReturned s = (Some (inl (inr err)), s') /\
    pres s' = pres s /\
    world s' = fst (Async_ReadBatch (r (pres s)) (lookupErr n (done s)) (world s)) /\
    ended n s'.
Proof.
  intros Hsrc Hcase. cbn [resume]. unfold_ops.
  destruct (Async_ReadBatch (r (pres s)) (lookupErr n (done s)) (world s))
    as [w' res]; cbn [fst snd] in *; subst res.
  rewrite afterSource_error. cbn [pres pendingMessages].
  replace (isTypeClosed err && (0 <? pendingMessages (pres s))) with false.
  - eexists. split; [reflexivity |].
    unfold ended, cancel, endCtx. cbn [done].
    destruct (lookupErr n (done s)) eqn:Hl; cbn.
    + repeat split. congruence.
    + repeat split. rewrite Nat.eqb_refl. discriminate.
  - symmetry. destruct Hcase as [Hc | Hp].
    + now rewrite Hc.
    + replace (0 <? pendingMessages (pres s)) with false
        by (symmetry; apply Z.ltb_ge; lia).
      apply andb_false_r.
Qed.

(** X3: an error of the source's [ReadBatch] that is not the closed error,
    or any error at all while nothing is in flight, is returned by the
    read as it is; nothing is counted, queued or handed out, and the
    read's context is ended on the way out. *)
Theorem source_error_is_passed_through n s (err : error) :
  snd (Async_ReadBatch (r (pres s)) (lookupErr n (done s)) (world s)) = inr err ->
  isTypeClosed err = false \/ pendingMessages (pres s) <= 0 ->
  exists s',
    resume (InSourceRead n) SourceReturned s = (Some (inl (inr err)), s') /\
    pres s' = pres s /\
    world s' = fst (Async_ReadBatch (r (pres s)) (lookupErr n (done s)) (world s)) /\
    ended n s'.
Proof.
  exact (resume_source_error n s err).
Qed.

(** ** What is put back after a partial failure *)

(** X8: when the positions the sort
    group reports for the failed parts lie inside the batch, every part
    put back for retry is a part of the stored batch. *)
Theorem retry_batch_holds_original_parts g m (err : error) :
  (forall n walk, err = ErrWalkable n walk ->
     Forall (fun p => GetIndex g p < Len (msg m)) (erroredParts walk)) ->
  forall p, In p (resendBatch g m err) -> In p (msg m).
Proof.
  intros Hin p. unfold resendBatch.
  destruct err as [| | | | ? | ? ? | n walk]; try (intros H; exact H).
  specialize (Hin n walk eq_refl).
  destruct (n <? Len (msg m)); [| intros H; exact H].
  rewrite WalkParts_collectErrored.
  destruct (forallb (fun p0 => 0 <=? GetIndex g p0) (erroredParts walk)) eqn:Hall.
  - cbn [QuickBatch_nil app].
    destruct (Len (map _ (erroredParts walk)) =? 0); [intros H; exact H |].
    intros Hp. apply in_map_iff in Hp. destruct Hp as (q & <- & Hq).
    rewrite forallb_forall in Hall. specialize (Hall q Hq). apply Z.leb_le in Hall.
    rewrite Forall_forall in Hin. specialize (Hin q Hq).
    unfold Get. apply nth_In. unfold Len in Hin. lia.
  - destruct (Len (msg m) =? 0); intros H; exact H.
Qed.

(** ** The interrupt handle *)

Lemma ended_endCtx_mono k n (err : error) s :
  ended k s -> ended k (snd (endCtx n err s)).
Proof.
  unfold ended, endCtx. intros H.
  destruct (lookupErr n (done s)) eqn:Hn; cbn; [exact H |].
  destruct (Nat.eqb n k); [discriminate | exact H].
Qed.

Lemma ended_endCtx n (err : error) s : ended n (snd (endCtx n err s)).
Proof.
  unfold ended, endCtx.
  destruct (lookupErr n (done s)) eqn:Hn; cbn.
  - congruence.
  - rewrite Nat.eqb_refl. discriminate.
Qed.

Lemma ended_WithCancel_mono k (parent : Context) s :
  ended k s -> ended k (snd (WithCancel parent s)).
Proof.
  intros H. unfold WithCancel, bind, fresh, ret.
  destruct parent as [err |]; cbn [fst snd].
  - set (s1 := mkState _ _ _ _).
    assert (H1 : ended k s1) by exact H.
    pose proof (ended_endCtx_mono k (nextId s) err s1 H1) as H2.
    destruct (endCtx (nextId s) err s1) as [u s2]. exact H2.
  - exact H.
Qed.

Lemma deliver_done n m s :
  done (snd (deliver n m s)) = done (snd (cancel n s)).
Proof.
  unfold deliver, wrapAckFn, wrapSingleAckFn, wrapBatchAckFn, NewSortGroup.
  destruct (Len (msg m) =? 1); unfold bind, ret, fresh; cbn [fst snd];
    rewrite finish_eq; cbn [snd]; unfold cancel, endCtx; cbn [done];
    destruct (lookupErr n (done s)); reflexivity.
Qed.

Lemma ended_deliver_mono k n m s : ended k s -> ended k (snd (deliver n m s)).
Proof.
  intros H. unfold ended. rewrite deliver_done. now apply ended_endCtx_mono.
Qed.

Lemma ended_deliver n m s : ended n (snd (deliver n m s)).
Proof.
  unfold ended. rewrite deliver_done. apply ended_endCtx.
Qed.

Lemma callAck_failure_done (ctx : Context) f s (err : error) :
  done (snd (callAck f ctx (Some err) s)) =
    match resendInterrupt (pres s) with
    | Some k => done (snd (cancel k s))
    | None => done s
    end.
Proof.
  destruct f as [g m | m]; unfold callAck; unfold_ops;
    destruct (resendInterrupt (pres s)) as [k |]; cbn;
    try destruct (lookupErr k (done s)); reflexivity.
Qed.

Lemma Connect_done (ctx : Context) s : done (snd (Connect ctx s)) = done s.
Proof.
  unfold Connect. unfold_ops.
  destruct (Async_Connect (r (pres s)) ctx (world s)) as [w' err]; cbn.
  destruct (errors_Is_ErrTypeClosed err && (0 <? pendingMessages (pres s)));
    reflexivity.
Qed.

(** What the entry of [ReadBatch] does to the handle. *)
Lemma ReadBatch_handle (parent : Context) s :
  (forall k, resendInterrupt (pres s) = Some k -> ended k s) ->
  forall k, resendInterrupt (pres (snd (ReadBatch parent s))) = Some k ->
    ended k (snd (ReadBatch parent s)) \/
    fst (ReadBatch parent s) = inr (InSourceRead k) \/
    fst (ReadBatch parent s) = inr (InDrain k).
Proof.
  intros Hold k. destruct (resendMessages (pres s)) as [| e rest] eqn:Hq.
  - rewrite (ReadBatch_empty parent s Hq). cbv zeta.
    destruct (0 <? inputClosed (pres s)).
    + rewrite afterSource_error. cbn [isTypeClosed andb pres pendingMessages].
      destruct (0 <? pendingMessages (pres s)); cbn [fst snd].
      * cbn. intros Hk; inversion Hk; subst. auto.
      * set (s2 := mkState _ _ _ _).
        destruct (cancel_frame (nextId s) s2) as [Hp _]. rewrite Hp.
        subst s2; cbn [pres resendInterrupt]. intros Hk; inversion Hk; subst.
        left. apply ended_endCtx.
    + cbn. intros Hk; inversion Hk; subst. auto.
  - rewrite (ReadBatch_pop parent s e rest Hq). cbv zeta. cbn [attempts].
    set (s2 := mkState _ _ _ _).
    assert (Hs2 : forall j, resendInterrupt (pres s) = Some j -> ended j s2).
    { intros j Hj. subst s2. unfold ended; cbn [done].
      apply (ended_WithCancel_mono j parent s). now apply Hold. }
    assert (Hdel : forall m' j,
              resendInterrupt (pres (snd (deliver (nextId s) m' s2))) = Some j ->
              ended j (snd (deliver (nextId s) m' s2))).
    { intros m' j.
      destruct (deliver_spec (nextId s) m' s2) as (b & f & s3 & Heq & _ & _ & Hpres & _).
      pose proof (ended_deliver_mono j (nextId s) m' s2) as Hmono.
      rewrite Heq in *. cbn [snd] in *. rewrite Hpres. subst s2; cbn [pres resendInterrupt].
      intros Hj. apply Hmono. now apply Hs2. }
    destruct (2 <? wrap64 (attempts e + 1)).
    + destruct (NextBackOff (boff e)) as [tout b'].
      destruct (0 <? tout).
      * cbn [fst snd]. subst s2; cbn [pres resendInterrupt]. intros Hk. left.
        unfold ended; cbn [done]. apply (ended_WithCancel_mono k parent s).
        now apply Hold.
      * intros Hk. left. now apply Hdel.
    + intros Hk. left. now apply Hdel.
Qed.

(** What a turn of a blocked read does to the handle. *)
Lemma resume_handle blk wk s out s' :
  resume blk wk s = (Some out, s') ->
  (forall k, resendInterrupt (pres s) = Some k ->
             ended k s \/ blk = InSourceRead k \/ blk = InDrain k) ->
  forall k, resendInterrupt (pres s') = Some k ->
            ended k s' \/ out = inr (InSourceRead k) \/ out = inr (InDrain k).
Proof.
  intros Hres Hold k Hk.
  destruct (resume_effect blk wk s out s' Hres) as (_ & Hi & _).
  rewrite Hi in Hk. specialize (Hold k Hk).
  destruct blk as [n m tout | n | n]; destruct wk; cbn [resume] in Hres;
    unfold bind, ctxErr, getP, liftW, ret in Hres; cbn [fst snd] in Hres;
    try discriminate.
  - (* backoff, timer *)
    destruct Hold as [He | [Hb | Hb]]; try discriminate.
    pose proof (ended_deliver_mono k n m s He) as Hm.
    destruct (deliver n m s) as [o s1]. inversion Hres; subst. now left.
  - (* backoff, context *)
    destruct Hold as [He | [Hb | Hb]]; try discriminate.
    destruct (lookupErr n (done s)) as [err |]; [| discriminate].
    rewrite finish_eq in Hres. inversion Hres; subst. left.
    now apply ended_endCtx_mono.
  - (* source *)
    destruct (Async_ReadBatch (r (pres s)) (lookupErr n (done s)) (world s))
      as [w' [[b aFn] | err]].
    + unfold afterSource in Hres. unfold bind at 1, addPending in Hres.
      unfold bind, getP, putP in Hres. cbn [fst snd pres world done nextId] in Hres.
      set (s1 := mkState _ _ _ _) in Hres.
      pose proof (ended_deliver_mono k n (newResendMsg b aFn) s1) as Hm.
      pose proof (ended_deliver n (newResendMsg b aFn) s1) as Hn.
      destruct (deliver n (newResendMsg b aFn) s1) as [o s2].
      inversion Hres; subst. left.
      destruct Hold as [He | [Hb | Hb]]; [apply Hm; exact He | | discriminate].
      inversion Hb; subst. exact Hn.
    + rewrite afterSource_error in Hres. cbn [pres pendingMessages] in Hres.
      destruct (isTypeClosed err && (0 <? pendingMessages (pres s))).
      * inversion Hres; subst.
        destruct Hold as [He | [Hb | Hb]]; [left; exact He | | discriminate].
        inversion Hb; subst. auto.
      * inversion Hres; subst. left.
        destruct Hold as [He | [Hb | Hb]]; [| | discriminate].
        -- apply ended_endCtx_mono. exact He.
        -- inversion Hb; subst. apply ended_endCtx.
  - (* drain, timer *)
    destruct (pendingMessages (pres s) <=? 0).
    + rewrite finish_eq in Hres. inversion Hres; subst. left.
      destruct Hold as [He | [Hb | Hb]]; [| discriminate |].
      * now apply ended_endCtx_mono.
      * inversion Hb; subst. apply ended_endCtx.
    + inversion Hres; subst.
      destruct Hold as [He | [Hb | Hb]]; [now left | discriminate |].
      inversion Hb; subst. auto.
  - (* drain, context *)
    destruct (lookupErr n (done s)) as [err |]; [| discriminate].
    rewrite finish_eq in Hres. inversion Hres; subst. left.
    destruct Hold as [He | [Hb | Hb]]; [| discriminate |].
    + now apply ended_endCtx_mono.
    + inversion Hb; subst. apply ended_endCtx.
Qed.

Lemma settle_reader s' (hs : list (@WrappedAck W)) out :
  forall k,
    (out = inr (InSourceRead k) -> reader (fst (settle s' hs out)) = Some (InSourceRead k)) /\
    (out = inr (InDrain k) -> reader (fst (settle s' hs out)) = Some (InDrain k)) /\
    st (fst (settle s' hs out)) = s'.
Proof.
  intros k. destruct out as [[[b f] | err] | blk]; cbn; repeat split;
    intros H; try discriminate; now inversion H.
Qed.

Lemma step_handleSpent ev (sys sys' : @Sys W) o :
  step ev sys = Some (sys', o) -> handleSpent sys -> handleSpent sys'.
Proof.
  intros Hstep Hold. destruct sys as [s rd hs].
  unfold handleSpent in *. cbn [st reader handed] in *.
  destruct ev as [ctx | ctx | parent | err | wk | i ctx res];
    cbn [step st reader handed] in Hstep.
  - (* Connect *)
    destruct (Connect_frame ctx s) as (_ & Hi & _).
    pose proof (Connect_done ctx s) as Hd.
    destruct (Connect ctx s) as [err s1]; cbn [snd] in *.
    inversion Hstep; subst; cbn [st reader]. intros k Hk. rewrite Hi in Hk.
    destruct (Hold k Hk) as [He | Hr]; [left | now right].
    unfold ended in *. now rewrite Hd.
  - (* Close *)
    unfold Close in Hstep. unfold_ops.
    destruct (Async_Close (r (pres s)) ctx (world s)) as [w' err].
    inversion Hstep; subst; cbn [st reader]. exact Hold.
  - (* ReadBatch *)
    destruct rd as [blk |]; [discriminate |].
    assert (Hspent : forall k, resendInterrupt (pres s) = Some k -> ended k s).
    { intros k Hk. destruct (Hold k Hk) as [He | [Hr | Hr]];
        [exact He | discriminate | discriminate]. }
    pose proof (ReadBatch_handle parent s Hspent) as Hh.
    destruct (ReadBatch parent s) as [out s1]; cbn [fst snd] in *.
    inversion Hstep as [Hset]. intros k Hk.
    destruct (settle_reader s1 hs out k) as (Hsrc & Hdr & Hst).
    rewrite Hset in *. cbn [fst] in *. rewrite Hst in Hk |- *.
    destruct (Hh k Hk) as [He | [Ho | Ho]]; auto.
  - (* the caller's scope ends *)
    destruct rd as [blk |]; [| discriminate].
    pose proof (ended_endCtx_mono) as Hmono.
    destruct (endCtx (ctxOf blk) err s) as [u s1] eqn:Hend.
    assert (Hp : pres s1 = pres s).
    { unfold endCtx in Hend. destruct (lookupErr (ctxOf blk) (done s));
        inversion Hend; reflexivity. }
    inversion Hstep; subst; cbn [st reader]. intros k Hk. rewrite Hp in Hk.
    destruct (Hold k Hk) as [He | Hr]; [left | now right].
    specialize (Hmono k (ctxOf blk) err s He). now rewrite Hend in Hmono.
  - (* a blocked read takes a turn *)
    destruct rd as [blk |]; [| discriminate].
    destruct (resume blk wk s) as [[out |] s1] eqn:Hres; [| discriminate].
    assert (Hblk : forall k, resendInterrupt (pres s) = Some k ->
                     ended k s \/ blk = InSourceRead k \/ blk = InDrain k).
    { intros k Hk. destruct (Hold k Hk) as [He | [Hr | Hr]]; auto;
        inversion Hr; auto. }
    pose proof (resume_handle blk wk s out s1 Hres Hblk) as Hh.
    inversion Hstep as [Hset]. intros k Hk.
    destruct (settle_reader s1 hs out k) as (Hsrc & Hdr & Hst).
    rewrite Hset in *. cbn [fst] in *. rewrite Hst in Hk |- *.
    destruct (Hh k Hk) as [He | [Ho | Ho]]; auto.
  - (* a callback is called *)
    destruct (nth_error hs i) as [f |] eqn:Hf; [| discriminate].
    destruct res as [err |].
    + destruct (callAck_failure_interrupt ctx f s err) as [Hi _].
      pose proof (callAck_failure_done ctx f s err) as Hd.
      destruct (callAck f ctx (Some err) s) as [out s1]; cbn [snd] in *.
      inversion Hstep; subst; cbn [st reader]. intros k Hk. rewrite Hi in Hk.
      destruct (Hold k Hk) as [He | Hr]; [left | now right].
      unfold ended. rewrite Hd, Hk. now apply ended_endCtx_mono.
    + rewrite callAck_success in Hstep.
      inversion Hstep; subst; cbn [st reader pres resendInterrupt]. exact Hold.
Qed.

Lemma Run_handleSpent src w tr (sys : @Sys W) :
  Run src w tr sys -> handleSpent sys.
Proof.
  induction 1 as [| tr s ev s' o Hrun IH Hstep].
  - intros k Hk. discriminate.
  - eapply step_handleSpent; eassumption.
Qed.

(** X5: in every state the system reaches, a callback that fails while no
    read is in progress, or while the read in progress sleeps before a
    redelivery, ends no context: it appends its entry and nothing else
    happens.  A backoff sleep is therefore never cut short by retry work
    arriving. *)
Theorem failure_outside_fresh_read_interrupts_nothing src w tr (sys : @Sys W) :
  Run src w tr sys ->
  (reader sys = None \/
   exists n m tout, reader sys = Some (InBackoff n m tout)) ->
  forall i (ctx : Context) (err : error) sys1 o1,
    step (CallAckFn i ctx (Some err)) sys = Some (sys1, o1) ->
    done (st sys1) = done (st sys) /\
    reader sys1 = reader sys /\
    world (st sys1) = world (st sys) /\
    List.length (resendMessages (pres (st sys1))) =
      S (List.length (resendMessages (pres (st sys)))).
Proof.
  intros Hrun Hrd i ctx err sys1 o1 Hstep.
  pose proof (Run_handleSpent src w tr sys Hrun) as Hspent.
  destruct sys as [s rd hs]. unfold handleSpent in Hspent.
  cbn [st reader handed step] in *.
  destruct (nth_error hs i) as [f |]; [| discriminate].
  destruct (callAck_failure ctx f s err) as (_ & Hw & _ & _ & m' & Hq & _).
  pose proof (callAck_failure_done ctx f s err) as Hd.
  destruct (callAck f ctx (Some err) s) as [out s1]; cbn [snd] in *.
  inversion Hstep; subst; cbn [st reader].
  split; [| split; [reflexivity | split; [exact Hw |]]].
  - rewrite Hd. destruct (resendInterrupt (pres s)) as [k |] eqn:Hk; [| reflexivity].
    assert (He : ended k s).
    { destruct (Hspent k eq_refl) as [He | [Hr | Hr]]; [exact He | |];
        destruct Hrd as [Hn | (n & m & tout & Hn)]; congruence. }
    unfold cancel, endCtx, ended in *.
    destruct (lookupErr k (done s)); [reflexivity | congruence].
  - rewrite Hq, length_app. cbn [List.length]. lia.
Qed.

(** X4: in every state the system reaches with a read waiting on the
    source, a callback that fails appends its entry and ends that read's
    context (with the cancellation error when the context was live).  If
    the source then comes back with an error other than the closed one,
    the read returns that error with the entry still queued, and the next
    read serves the queue without calling the source. *)
Theorem failure_interrupts_read_on_source src w tr (sys : @Sys W) n :
  Run src w tr sys ->
  reader sys = Some (InSourceRead n) ->
  forall i (ctx : Context) (err : error) sys1 o1,
    step (CallAckFn i ctx (Some err)) sys = Some (sys1, o1) ->
    reader sys1 = Some (InSourceRead n) /\
    ended n (st sys1) /\
    (lookupErr n (done (st sys)) = None ->
       lookupErr n (done (st sys1)) = Some Canceled) /\
    forall cerr : error,
      snd (Async_ReadBatch (r (pres (st sys1))) (lookupErr n (done (st sys1)))
                           (world (st sys1))) = inr cerr ->
      isTypeClosed cerr = false ->
      exists sys2,
        step (WakeRead SourceReturned) sys1 = Some (sys2, ReadReturned (inr cerr)) /\
        reader sys2 = None /\
        List.length (resendMessages (pres (st sys2))) =
          S (List.length (resendMessages (pres (st sys)))) /\
        forall parent : Context,
          exists sys3 o3,
            step (CallReadBatch parent) sys2 = Some (sys3, o3) /\
            world (st sys3) = world (st sys2) /\
            List.length (resendMessages (pres (st sys3))) =
              List.length (resendMessages (pres (st sys))) /\
            notOnSource sys3.
Proof.
  intros Hrun Hrd i ctx err sys1 o1 Hstep.
  destruct (Run_invariant src w tr sys Hrun) as (_ & _ & Hint).
  assert (Hi : resendInterrupt (pres (st sys)) = Some n) by (apply Hint; now left).
  destruct sys as [s rd hs]. cbn [st reader handed step] in *. subst rd.
  destruct (nth_error hs i) as [f |]; [| discriminate].
  destruct (callAck_failure ctx f s err) as (_ & _ & _ & _ & m' & Hq & _).
  pose proof (callAck_failure_done ctx f s err) as Hd. rewrite Hi in Hd.
  destruct (callAck f ctx (Some err) s) as [out s1]; cbn [snd] in *.
  inversion Hstep; subst; cbn [st reader handed].
  split; [reflexivity |]. split; [| split].
  - unfold ended. rewrite Hd. apply ended_endCtx.
  - intros Hlive. rewrite Hd. unfold cancel, endCtx. rewrite Hlive. cbn.
    now rewrite Nat.eqb_refl.
  - intros cerr Hsrc Hnc.
    destruct (resume_source_error n s1 cerr Hsrc (or_introl Hnc))
      as (s2 & Hres & Hp2 & _ & _).
    exists (mkSys s2 None (removeNth i hs)).
    cbn [step reader st handed]. rewrite Hres. cbn [settle].
    split; [reflexivity |]. split; [reflexivity |]. split.
    + rewrite Hp2, Hq, length_app. cbn [List.length]. lia.
    + intros parent. cbn [step reader st handed].
      assert (Hq2 : exists e0 rest, resendMessages (pres s2) = e0 :: rest /\
                      List.length rest = List.length (resendMessages (pres s))).
      { rewrite Hp2, Hq. destruct (resendMessages (pres s)) as [| a q0]; cbn.
        - exists m', []. split; reflexivity.
        - exists a, (q0 ++ [m']). split; [reflexivity |].
          rewrite length_app. cbn. lia. }
      destruct Hq2 as (e0 & rest & Hq2 & Hlen).
      destruct (ReadBatch_front parent s2 e0 rest Hq2) as (H1 & _ & _ & _ & H5 & e' & H6 & _).
      destruct (ReadBatch parent s2) as [out2 s3]; cbn [fst snd] in *.
      destruct (settle s3 (removeNth i hs) out2) as [sys3 o3] eqn:Hset.
      exists sys3, o3. split; [reflexivity |].
      destruct out2 as [[[b f2] | e2] | [k m2 t2 | k | k]]; cbn in H6; try discriminate;
        cbn [settle] in Hset; inversion Hset; subst; cbn [st reader];
        (split; [exact H5 |]); (split; [exact Hlen |]);
        intros k' Hk'; discriminate.
Qed.

(** ** The closed flag *)

Lemma resume_inputClosed blk wk s out s' :
  resume blk wk s = (Some out, s') ->
  inputClosed (pres s') = inputClosed (pres s).
Proof.
  destruct blk as [n m tout | n | n]; destruct wk; cbn [resume]; unfold_ops;
    try discriminate.
  - destruct (deliver_spec n m s) as (b & f & s3 & Heq & _ & _ & Hpres & _).
    rewrite Heq. intros H; inversion H; subst. now rewrite Hpres.
  - destruct (lookupErr n (done s)); [| discriminate].
    rewrite finish_eq. intros H; inversion H; subst.
    destruct (cancel_frame n s) as [Hp _]. now rewrite Hp.
  - destruct (Async_ReadBatch (r (pres s)) (lookupErr n (done s)) (world s))
      as [w' [[b aFn] | err]].
    + unfold afterSource. unfold_ops.
      set (s1 := mkState _ _ _ _).
      destruct (deliver_spec n (newResendMsg b aFn) s1)
        as (b' & f & s3 & Heq & _ & _ & Hpres & _).
      rewrite Heq. intros H; inversion H; subst. now rewrite Hpres.
    + rewrite afterSource_error. cbn [pres pendingMessages].
      destruct (isTypeClosed err && (0 <? pendingMessages (pres s))).
      * intros H; inversion H; subst. reflexivity.
      * set (s1 := mkState _ _ _ _).
        destruct (cancel_frame n s1) as [Hp _].
        intros H; inversion H; subst. now rewrite Hp.
  - destruct (pendingMessages (pres s) <=? 0).
    + rewrite finish_eq. intros H; inversion H; subst.
      destruct (cancel_frame n s) as [Hp _]. now rewrite Hp.
    + intros H; inversion H; subst. reflexivity.
  - destruct (lookupErr n (done s)); [| discriminate].
    rewrite finish_eq. intros H; inversion H; subst.
    destruct (cancel_frame n s) as [Hp _]. now rewrite Hp.
Qed.

Lemma ReadBatch_flag (parent : Context) s :
  inputClosed (pres (snd (ReadBatch parent s))) = inputClosed (pres s) /\
  (0 < inputClosed (pres s) ->
   forall n, fst (ReadBatch parent s) <> inr (InSourceRead n)).
Proof.
  destruct (resendMessages (pres s)) as [| e rest] eqn:Hq.
  - rewrite (ReadBatch_empty parent s Hq). cbv zeta.
    destruct (0 <? inputClosed (pres s)) eqn:Hc.
    + rewrite afterSource_error. cbn [isTypeClosed andb pres pendingMessages].
      destruct (0 <? pendingMessages (pres s)); cbn [fst snd].
      * split; [reflexivity | intros _ n; discriminate].
      * set (s2 := mkState _ _ _ _).
        destruct (cancel_frame (nextId s) s2) as [Hp _]. rewrite Hp.
        split; [reflexivity | intros _ n; discriminate].
    + split; [reflexivity |]. intros Hpos. apply Z.ltb_ge in Hc. lia.
  - destruct (ReadBatch_front parent s e rest Hq) as (_ & _ & _ & H4 & _ & e' & H6 & _).
    split; [exact H4 |]. intros _ n Hn. rewrite Hn in H6. discriminate.
Qed.

Lemma step_flag ev (sys sys' : @Sys W) o :
  step ev sys = Some (sys', o) ->
  0 < inputClosed (pres (st sys)) ->
  notOnSource sys ->
  0 < inputClosed (pres (st sys')) /\ notOnSource sys' /\
  ev <> WakeRead SourceReturned.
Proof.
  intros Hstep Hflag Hno. destruct sys as [s rd hs].
  unfold notOnSource in *. cbn [st reader handed] in *.
  destruct ev as [ctx | ctx | parent | err | wk | i ctx res];
    cbn [step st reader handed] in Hstep.
  - (* Connect *)
    assert (Hc : 0 < inputClosed (pres (snd (Connect ctx s)))).
    { unfold Connect. unfold_ops.
      destruct (Async_Connect (r (pres s)) ctx (world s)) as [w' err]; cbn.
      destruct (errors_Is_ErrTypeClosed err && (0 <? pendingMessages (pres s)));
        cbn; [lia | exact Hflag]. }
    destruct (Connect ctx s) as [err s1]; cbn [snd] in *.
    inversion Hstep; subst; cbn [st reader].
    split; [exact Hc | split; [exact Hno | discriminate]].
  - (* Close *)
    unfold Close in Hstep. unfold_ops.
    destruct (Async_Close (r (pres s)) ctx (world s)) as [w' err].
    inversion Hstep; subst; cbn [st reader pres].
    split; [exact Hflag | split; [exact Hno | discriminate]].
  - (* ReadBatch *)
    destruct rd as [blk |]; [discriminate |].
    destruct (ReadBatch_flag parent s) as [Hsame Hnot]. specialize (Hnot Hflag).
    destruct (ReadBatch parent s) as [out s1]; cbn [fst snd] in *.
    inversion Hstep as [Hset].
    split; [| split; [| discriminate]].
    + destruct out as [[[b f] | e] | blk]; cbn [settle] in Hset; inversion Hset;
        subst; cbn [st]; lia.
    + intros n Hn.
      destruct out as [[[b f] | e] | blk]; cbn [settle] in Hset; inversion Hset;
        subst; cbn [reader] in Hn; try discriminate.
      inversion Hn; subst. now apply (Hnot n).
  - (* the caller's scope ends *)
    destruct rd as [blk |]; [| discriminate].
    unfold endCtx in Hstep.
    destruct (lookupErr (ctxOf blk) (done s)); inversion Hstep; subst;
      cbn [st reader pres]; (split; [exact Hflag | split; [exact Hno | discriminate]]).
  - (* a blocked read takes a turn *)
    destruct rd as [blk |]; [| discriminate].
    destruct (resume blk wk s) as [[out |] s1] eqn:Hres; [| discriminate].
    pose proof (resume_inputClosed blk wk s out s1 Hres) as Hsame.
    destruct (resume_effect blk wk s out s1 Hres) as (_ & _ & Hout).
    inversion Hstep as [Hset].
    split; [| split].
    + destruct out as [[[b f] | e] | blk']; cbn [settle] in Hset; inversion Hset;
        subst; cbn [st]; lia.
    + intros n Hn.
      destruct out as [[[b f] | e] | blk']; cbn [settle] in Hset; inversion Hset;
        subst; cbn [reader] in Hn; try discriminate.
      destruct Hout as (_ & Hb & _). inversion Hn; subst. discriminate.
    + intros Hwk; inversion Hwk; subst wk.
      destruct blk as [n m tout | n | n]; cbn [resume] in Hres; unfold ret in Hres;
        try discriminate.
      now apply (Hno n).
  - (* a callback is called *)
    destruct (nth_error hs i) as [f |]; [| discriminate].
    destruct res as [err |].
    + destruct (callAck_failure ctx f s err) as (_ & _ & _ & Hc & _).
      destruct (callAck f ctx (Some err) s) as [out s1]; cbn [snd] in *.
      inversion Hstep; subst; cbn [st reader].
      split; [lia | split; [exact Hno | discriminate]].
    + rewrite callAck_success in Hstep.
      inversion Hstep; subst; cbn [st reader pres inputClosed].
      split; [exact Hflag | split; [exact Hno | discriminate]].
Qed.

(** X6: the closed flag is never cleared, and once it is set with no read
    waiting on the source, no read waits on the source again: whatever
    happens afterwards, the flag stays set and the source's [ReadBatch] is
    not called. *)
Theorem closed_flag_is_sticky es : forall (sys sys' : @Sys W) tr,
  replay es sys = Some (sys', tr) ->
  0 < inputClosed (pres (st sys)) ->
  notOnSource sys ->
  0 < inputClosed (pres (st sys')) /\ notOnSource sys' /\
  Forall (fun eo => fst eo <> WakeRead SourceReturned) tr.
Proof.
  induction es as [| ev es IH]; intros sys sys' tr Hrep Hflag Hno; cbn in Hrep.
  - inversion Hrep; subst. repeat split; [exact Hflag | exact Hno | constructor].
  - destruct (step ev sys) as [[s1 o] |] eqn:Hstep; [| discriminate].
    destruct (replay es s1) as [[s2 tr'] |] eqn:Hrest; [| discriminate].
    inversion Hrep; subst.
    destruct (step_flag ev sys s1 o Hstep Hflag Hno) as (Hf1 & Hn1 & Hev).
    destruct (IH s1 sys' tr' Hrest Hf1 Hn1) as (Hf2 & Hn2 & Hall).
    repeat split; [exact Hf2 | exact Hn2 |]. constructor; [exact Hev | exact Hall].
Qed.

(** ** The original callback *)

Lemma failingRound_keeps (parent : Context) (err : error) s e :
  resendMessages (pres s) = [e] ->
  exists e',
    resendMessages (pres (snd (failingRound parent err s))) = [e'] /\
    ackFn e' = ackFn e /\
    world (snd (failingRound parent err s)) = world s /\
    pendingMessages (pres (snd (failingRound parent err s))) = pendingMessages (pres s).
Proof.
  intros Hq.
  destruct (failingRound parent err s) as [d sF] eqn:HR. cbn [fst snd].
  unfold failingRound in HR. unfold bind at 1 in HR.
  rewrite (ReadBatch_pop parent s e [] Hq) in HR. cbv zeta in HR. cbn [attempts] in HR.
  set (s2 := mkState _ _ _ _) in HR.
  assert (Htail : forall m f s3 o s4,
            entryOf f = m -> ackFn m = ackFn e ->
            pres s3 = pres s2 -> world s3 = world s2 ->
            callAck f None (Some err) s3 = (o, s4) ->
            exists e',
              resendMessages (pres s4) = [e'] /\ ackFn e' = ackFn e /\
              world s4 = world s /\
              pendingMessages (pres s4) = pendingMessages (pres s)).
  { intros m f s3 o s4 Hf Hm Hp3 Hw3 Hcall.
    destruct (callAck_failure None f s3 err) as (_ & Hw & Hp & _ & m' & Hq' & Ha & _).
    rewrite Hcall in *. cbn [snd] in *.
    exists m'. rewrite Hq', Ha, Hf, Hw, Hp, Hp3, Hw3. subst s2; cbn.
    repeat split. exact Hm. }
  destruct (2 <? wrap64 (attempts e + 1)).
  - destruct (NextBackOff (boff e)) as [tout b'].
    destruct (0 <? tout).
    + cbn [resume] in HR. unfold bind at 1 2 in HR. unfold ret at 1 in HR.
      set (m := mkResend b' _ _ _) in HR.
      destruct (deliver_spec (nextId s) m s2) as (b & f & s3 & Heq & Hf & _ & Hp3 & Hw3).
      rewrite Heq in HR. unfold bind, ret in HR.
      destruct (callAck f None (Some err) s3) as [o s4] eqn:Hcall.
      inversion HR; subst d sF.
      apply (Htail m f s3 o s4 Hf eq_refl Hp3 Hw3 Hcall).
    + set (m := mkResend b' _ _ _) in HR.
      destruct (deliver_spec (nextId s) m s2) as (b & f & s3 & Heq & Hf & _ & Hp3 & Hw3).
      rewrite Heq in HR. unfold bind, ret in HR.
      destruct (callAck f None (Some err) s3) as [o s4] eqn:Hcall.
      inversion HR; subst d sF.
      apply (Htail m f s3 o s4 Hf eq_refl Hp3 Hw3 Hcall).
  - set (m := mkResend (boff e) _ _ _) in HR.
    destruct (deliver_spec (nextId s) m s2) as (b & f & s3 & Heq & Hf & _ & Hp3 & Hw3).
    rewrite Heq in HR. unfold bind, ret in HR.
    destruct (callAck f None (Some err) s3) as [o s4] eqn:Hcall.
    inversion HR; subst d sF.
    apply (Htail m f s3 o s4 Hf eq_refl Hp3 Hw3 Hcall).
Qed.

Lemma failingRounds_keeps (parent : Context) (err : error) n : forall s e,
  resendMessages (pres s) = [e] ->
  exists e',
    resendMessages (pres (snd (failingRounds n parent err s))) = [e'] /\
    ackFn e' = ackFn e /\
    world (snd (failingRounds n parent err s)) = world s /\
    pendingMessages (pres (snd (failingRounds n parent err s))) =
      pendingMessages (pres s).
Proof.
  induction n as [| n IH]; intros s e Hq.
  - exists e. cbn. repeat split. exact Hq.
  - rewrite failingRounds_S. cbn [snd].
    destruct (failingRound_keeps parent err s e Hq) as (e1 & Hq1 & Ha1 & Hw1 & Hp1).
    destruct (IH (snd (failingRound parent err s)) e1 Hq1) as (e2 & Hq2 & Ha2 & Hw2 & Hp2).
    exists e2. repeat split; congruence.
Qed.

Lemma ackRound_lone (parent ctx : Context) s e :
  resendMessages (pres s) = [e] ->
  exists s',
    ackRound parent ctx s = (snd (ackFn e ctx None (world s)), s') /\
    world s' = fst (ackFn e ctx None (world s)) /\
    resendMessages (pres s') = [] /\
    pendingMessages (pres s') = wrap64 (pendingMessages (pres s) - 1).
Proof.
  intros Hq. unfold ackRound. unfold bind at 1.
  destruct (readPastBackoff_front parent s e [] Hq)
    as (Hq1 & Hp1 & Hw1 & b & f & Hout & (_ & Hack & _) & _).
  destruct (readPastBackoff parent s) as [o s1]; cbn [fst snd] in *. subst o.
  unfold bind, ret. rewrite callAck_success. cbn [fst snd].
  rewrite Hack, Hw1, Hq1, Hp1.
  eexists. split; [reflexivity |]. cbn.
  repeat split.
Qed.

(** X7: however often a lone entry fails, the original callback is not
    called and the in-flight counter stays; the first success then calls
    the original callback once, with the success result, returns what it
    returns, takes one off the counter and leaves the queue empty. *)
Theorem original_callback_called_once_at_success
    (parent ctx : Context) (err : error) n s e :
  resendMessages (pres s) = [e] ->
  world (snd (failingRounds n parent err s)) = world s /\
  pendingMessages (pres (snd (failingRounds n parent err s))) =
    pendingMessages (pres s) /\
  exists s',
    ackRound parent ctx (snd (failingRounds n parent err s)) =
      (snd (ackFn e ctx None (world s)), s') /\
    world s' = fst (ackFn e ctx None (world s)) /\
    resendMessages (pres s') = [] /\
    pendingMessages (pres s') = wrap64 (pendingMessages (pres s) - 1).
Proof.
  intros Hq.
  destruct (failingRounds_keeps parent err n s e Hq) as (e' & Hq' & Ha & Hw & Hp).
  split; [exact Hw |]. split; [exact Hp |].
  destruct (ackRound_lone parent ctx _ e' Hq') as (s' & Heq & Hw' & Hqe & Hp').
  exists s'. rewrite Heq, Hw', Hp', Ha, Hw, Hp. repeat split. exact Hqe.
Qed.

(** ** The end of a drain *)

Lemma drain_acks (ctx : Context) n (hs : list (@WrappedAck W)) : forall s,
  pendingMessages (pres s) = Z.of_nat (List.length hs) ->
  Z.of_nat (List.length hs) <= max_int64 ->
  exists s' tr,
    replay (repeat (CallAckFn 0 ctx None) (List.length hs))
           (mkSys s (Some (InDrain n)) hs) =
      Some (mkSys s' (Some (InDrain n)) [], tr) /\
    pendingMessages (pres s') = 0 /\
    resendMessages (pres s') = resendMessages (pres s) /\
    done s' = done s.
Proof.
  induction hs as [| f hs IH]; intros s Hp Hmax.
  - exists s, []. cbn. repeat split. exact Hp.
  - cbn [List.length repeat replay step st reader handed nth_error].
    rewrite callAck_success. cbn [removeNth fst].
    set (s1 := mkState _ _ _ _).
    cbn [List.length] in Hp, Hmax.
    assert (Hp1 : pendingMessages (pres s1) = Z.of_nat (List.length hs)).
    { subst s1; cbn. rewrite Hp.
      replace (Z.of_nat (S (List.length hs)) + -1) with (Z.of_nat (List.length hs)) by lia.
      apply wrap64_id. unfold min_int64, max_int64 in *. lia. }
    destruct (IH s1 Hp1) as (s' & tr & Hrep & H0 & Hq & Hd); [lia |].
    rewrite Hrep. eexists s', _. split; [reflexivity |].
    split; [exact H0 |]. split; [rewrite Hq | rewrite Hd]; reflexivity.
Qed.

(** X9: a draining read whose in-flight counter counts exactly the
    callbacks handed out: once each of them has been called with
    success, the counter is zero and the next tick of the loop returns
    the closed error. *)
Theorem drain_ends_when_all_callbacks_succeed (ctx : Context) n (sys : @Sys W) :
  reader sys = Some (InDrain n) ->
  pendingMessages (pres (st sys)) = Z.of_nat (List.length (handed sys)) ->
  Z.of_nat (List.length (handed sys)) <= max_int64 ->
  exists sys1 tr sys2,
    replay (repeat (CallAckFn 0 ctx None) (List.length (handed sys))) sys =
      Some (sys1, tr) /\
    handed sys1 = [] /\
    pendingMessages (pres (st sys1)) = 0 /\
    step (WakeRead TimerFired) sys1 = Some (sys2, ReadReturned (inr ErrTypeClosed)) /\
    reader sys2 = None.
Proof.
  intros Hrd Hp Hmax. destruct sys as [s rd hs]. cbn [st reader handed] in *. subst rd.
  destruct (drain_acks ctx n hs s Hp Hmax) as (s' & tr & Hrep & H0 & _ & _).
  eexists _, tr, _. split; [exact Hrep |]. cbn [handed st].
  split; [reflexivity |]. split; [exact H0 |].
  cbn [step reader st handed resume]. unfold bind, getP, ret. rewrite H0.
  cbn [Z.leb Z.compare]. rewrite finish_eq. cbn [settle]. split; reflexivity.
Qed.

(** X10: a draining read with a positive counter and no callback left to
    call cannot be released by an acknowledgement: every step leaves it
    draining with the counter as it is, except the end of its context,
    which returns the timeout error. *)
Theorem drain_with_nothing_outstanding_only_times_out n (sys : @Sys W) :
  reader sys = Some (InDrain n) ->
  handed sys = [] ->
  0 < pendingMessages (pres (st sys)) ->
  forall ev sys' o,
    step ev sys = Some (sys', o) ->
    (reader sys' = Some (InDrain n) /\ handed sys' = [] /\
     pendingMessages (pres (st sys')) = pendingMessages (pres (st sys))) \/
    (ev = WakeRead CtxDone /\ o = ReadReturned (inr ErrTimeout)).
Proof.
  intros Hrd Hhs Hpos ev sys' o Hstep.
  destruct sys as [s rd hs]. cbn [st reader handed] in *. subst rd hs.
  destruct ev as [ctx | ctx | parent | err | wk | i ctx res];
    cbn [step st reader handed] in Hstep.
  - destruct (Connect_frame ctx s) as (_ & _ & Hp).
    destruct (Connect ctx s) as [e s1]; cbn [snd] in *.
    inversion Hstep; subst. left. cbn. repeat split. exact Hp.
  - unfold Close in Hstep. unfold_ops.
    destruct (Async_Close (r (pres s)) ctx (world s)) as [w' e].
    inversion Hstep; subst. left. cbn. repeat split.
  - discriminate.
  - cbn [ctxOf] in Hstep. unfold endCtx in Hstep.
    destruct (lookupErr n (done s)); inversion Hstep; subst; left; cbn; repeat split.
  - destruct wk; cbn [resume] in Hstep; unfold bind, getP, ctxErr, ret in Hstep;
      cbn [fst snd] in Hstep.
    + replace (pendingMessages (pres s) <=? 0) with false in Hstep
        by (symmetry; apply Z.leb_gt; exact Hpos).
      inversion Hstep; subst. left. cbn. repeat split.
    + destruct (lookupErr n (done s)); [| discriminate].
      rewrite finish_eq in Hstep. cbn [settle] in Hstep.
      inversion Hstep; subst. right. split; reflexivity.
    + discriminate.
  - destruct i; discriminate.
Qed.

(** ** The context of a read *)

Lemma resume_returns_ended blk wk s (out : @ReadOut W) s' :
  resume blk wk s = (Some (inl out), s') -> ended (ctxOf blk) s'.
Proof.
  destruct blk as [n m tout | n | n]; destruct wk; cbn [resume ctxOf];
    unfold bind, ctxErr, getP, liftW, ret; cbn [fst snd]; try discriminate.
  - pose proof (ended_deliver n m s) as He.
    destruct (deliver n m s) as [o s1]. intros H; inversion H; subst. exact He.
  - destruct (lookupErr n (done s)); [| discriminate].
    rewrite finish_eq. intros H; inversion H; subst. apply ended_endCtx.
  - destruct (Async_ReadBatch (r (pres s)) (lookupErr n (done s)) (world s))
      as [w' [[b aFn] | err]].
    + unfold afterSource. unfold bind at 1, addPending.
      unfold bind, getP, putP. cbn [fst snd pres world done nextId].
      set (s1 := mkState _ _ _ _).
      pose proof (ended_deliver n (newResendMsg b aFn) s1) as He.
      destruct (deliver n (newResendMsg b aFn) s1) as [o s2].
      intros H; inversion H; subst. exact He.
    + rewrite afterSource_error. cbn [pres pendingMessages].
      destruct (isTypeClosed err && (0 <? pendingMessages (pres s))).
      * discriminate.
      * intros H; inversion H; subst. apply ended_endCtx.
  - destruct (pendingMessages (pres s) <=? 0).
    + rewrite finish_eq. intros H; inversion H; subst. apply ended_endCtx.
    + discriminate.
  - destruct (lookupErr n (done s)); [| discriminate].
    rewrite finish_eq. intros H; inversion H; subst. apply ended_endCtx.
Qed.

Lemma ReadBatch_returns_ended (parent : Context) s (out : @ReadOut W) :
  fst (ReadBatch parent s) = inl out ->
  ended (nextId s) (snd (ReadBatch parent s)).
Proof.
  destruct (resendMessages (pres s)) as [| e rest] eqn:Hq.
  - rewrite (ReadBatch_empty parent s Hq). cbv zeta.
    destruct (0 <? inputClosed (pres s)); [| discriminate].
    rewrite afterSource_error. cbn [isTypeClosed andb pres pendingMessages].
    destruct (0 <? pendingMessages (pres s)); cbn [fst snd]; [discriminate |].
    intros _. apply ended_endCtx.
  - rewrite (ReadBatch_pop parent s e rest Hq). cbv zeta. cbn [attempts].
    destruct (2 <? wrap64 (attempts e + 1)).
    + destruct (NextBackOff (boff e)) as [tout b'].
      destruct (0 <? tout); [discriminate |].
      intros _. apply ended_deliver.
    + intros _. apply ended_deliver.
Qed.

(** X11: whenever [ReadBatch] returns, with a batch or with an error, at
    once or after having blocked, the context it derived on entry has
    been ended, and no read is in progress any more. *)
Theorem returning_read_ends_its_context ev (sys sys' : @Sys W) out :
  step ev sys = Some (sys', ReadReturned out) ->
  reader sys' = None /\
  ended (match reader sys with
         | Some blk => ctxOf blk
         | None => nextId (st sys)
         end) (st sys').
Proof.
  intros Hstep. destruct sys as [s rd hs]. cbn [st reader handed] in *.
  destruct ev as [ctx | ctx | parent | err | wk | i ctx res];
    cbn [step st reader handed] in Hstep.
  - destruct (Connect ctx s); discriminate.
  - destruct (Close ctx s); discriminate.
  - destruct rd as [blk |]; [discriminate |].
    pose proof (ReadBatch_returns_ended parent s) as He.
    destruct (ReadBatch parent s) as [o s1]; cbn [fst snd] in *.
    destruct o as [[[b f] | e] | blk]; cbn [settle] in Hstep; inversion Hstep; subst;
      cbn [reader st]; (split; [reflexivity | eapply He; reflexivity]).
  - destruct rd as [blk |]; [| discriminate].
    destruct (endCtx (ctxOf blk) err s); discriminate.
  - destruct rd as [blk |]; [| discriminate].
    destruct (resume blk wk s) as [[o |] s1] eqn:Hres; [| discriminate].
    destruct o as [[[b f] | e] | blk']; cbn [settle] in Hstep; inversion Hstep; subst;
      cbn [reader st]; (split; [reflexivity | eapply resume_returns_ended; exact Hres]).
  - destruct (nth_error hs i) as [f |]; [| discriminate].
    destruct (callAck f ctx res s); discriminate.
Qed.

(** X12: the closed flag changes in one way only: a [Connect] whose
    source reports closed while batches are in flight stores 1 and
    returns nil.  No read, no callback and no [Close] touches it; a closed
    error from the source's [ReadBatch], in particular, leaves it alone. *)
Theorem closed_flag_is_set_by_Connect_only ev (sys sys' : @Sys W) o :
  step ev sys = Some (sys', o) ->
  inputClosed (pres (st sys')) <> inputClosed (pres (st sys)) ->
  exists ctx : Context,
    ev = CallConnect ctx /\
    o = ConnectReturned None /\
    inputClosed (pres (st sys')) = 1 /\
    errors_Is_ErrTypeClosed
      (snd (Async_Connect (r (pres (st sys))) ctx (world (st sys)))) = true /\
    0 < pendingMessages (pres (st sys)).
Proof.
  intros Hstep Hchg. destruct sys as [s rd hs]. cbn [st reader handed] in *.
  destruct ev as [ctx | ctx | parent | err | wk | i ctx res];
    cbn [step st reader handed] in Hstep.
  - exists ctx. unfold Connect in Hstep. unfold_ops.
    destruct (Async_Connect (r (pres s)) ctx (world s)) as [w' err]; cbn [fst snd] in *.
    cbn [pres pendingMessages] in Hstep. revert Hstep Hchg.
    destruct (errors_Is_ErrTypeClosed err) eqn:Hc;
      destruct (0 <? pendingMessages (pres s)) eqn:Hp; cbn [andb];
      intros Hstep Hchg; inversion Hstep; subst; cbn [st pres inputClosed] in *;
      try congruence.
    apply Z.ltb_lt in Hp. repeat split. exact Hp.
  - unfold Close in Hstep. unfold_ops.
    destruct (Async_Close (r (pres s)) ctx (world s)) as [w' err].
    inversion Hstep; subst. cbn in Hchg. congruence.
  - destruct rd as [blk |]; [discriminate |].
    destruct (ReadBatch_flag parent s) as [Hsame _].
    destruct (ReadBatch parent s) as [out s1]; cbn [fst snd] in *.
    destruct out as [[[b f] | e] | blk]; cbn [settle] in Hstep; inversion Hstep;
      subst; cbn [st] in Hchg; congruence.
  - destruct rd as [blk |]; [| discriminate].
    unfold endCtx in Hstep.
    destruct (lookupErr (ctxOf blk) (done s)); inversion Hstep; subst;
      cbn in Hchg; congruence.
  - destruct rd as [blk |]; [| discriminate].
    destruct (resume blk wk s) as [[out |] s1] eqn:Hres; [| discriminate].
    pose proof (resume_inputClosed blk wk s out s1 Hres) as Hsame.
    destruct out as [[[b f] | e] | blk']; cbn [settle] in Hstep; inversion Hstep;
      subst; cbn [st] in Hchg; congruence.
  - destruct (nth_error hs i) as [f |]; [| discriminate].
    destruct res as [err |].
    + destruct (callAck_failure ctx f s err) as (_ & _ & _ & Hc & _).
      destruct (callAck f ctx (Some err) s) as [out s1]; cbn [snd] in *.
      inversion Hstep; subst; cbn [st] in Hchg. congruence.
    + rewrite callAck_success in Hstep.
      inversion Hstep; subst; cbn in Hchg. congruence.
Qed.

End Further.

(** * Further worked instances *)

Section FurtherInstances.

#[local] Existing Instance demoChance.

(** A one-part batch told that none of its parts failed is still put back
    whole. *)
Lemma single_part_witness :
  Len (msg entryOne) = 1 /\
  resendMessages
    (pres (snd (callAck (SingleAck entryOne) None (Some (ErrWalkable 0 [])) idle))) =
    [entryOne].
Proof.
  assert (H1 : Len (msg entryOne) = 1) by reflexivity.
  destruct (single_part_batch_is_retried_whole 0%nat entryOne idle H1) as (_ & _ & Hq).
  split; [exact H1 |]. exact (Hq None (ErrWalkable 0 []) idle).
Defined.

(** The third redelivery of the one-part batch, cancelled in its sleep of
    450 ms: the queue is left empty. *)
Lemma sleep_cut_short_witness :
  2 <= attempts entryTwice < max_int64 /\
  0 < fst (NextBackOff (boff entryTwice)) /\
  exists e' s3,
    resume (InBackoff 0 e' 450000000) CtxDone
           (snd (endCtx 0 Canceled (snd (ReadBatch None (withPreserver [entryTwice] 1 0)))))
      = (Some (inl (inr Canceled)), s3) /\
    resendMessages (pres s3) = [].
Proof.
  assert (Ha : 2 <= attempts entryTwice < max_int64)
    by (split; [discriminate | reflexivity]).
  assert (Hd : fst (NextBackOff (boff entryTwice)) = 450000000)
    by (vm_compute; reflexivity).
  assert (Ht : 0 < fst (NextBackOff (boff entryTwice)))
    by (rewrite Hd; reflexivity).
  assert (Hl : lookupErr (nextId (withPreserver [entryTwice] 1 0))
                 (done (snd (endCtx 0 Canceled
                               (snd (ReadBatch None (withPreserver [entryTwice] 1 0))))))
               = Some Canceled) by (vm_compute; reflexivity).
  destruct (sleep_cut_short_drops_entry None (withPreserver [entryTwice] 1 0)
              entryTwice [] eq_refl Ha Ht) as (e' & _ & _ & _ & Hcut).
  destruct (Hcut (snd (endCtx 0 Canceled (snd (ReadBatch None (withPreserver [entryTwice] 1 0)))))
                 Canceled Hl) as (s3 & Hres & Hp & _).
  rewrite Hd in Hres. change (nextId (withPreserver [entryTwice] 1 0)) with 0%nat in Hres.
  split; [exact Ha |]. split; [exact Ht |].
  exists e', s3. split; [exact Hres |]. rewrite Hp. vm_compute. reflexivity.
Defined.

(** The source hands a cancelled read its context's error, and the read
    returns it. *)
Lemma source_error_witness :
  snd (Async_ReadBatch (r (pres cancelledRead)) (lookupErr 0 (done cancelledRead))
                       (world cancelledRead)) = inr Canceled /\
  isTypeClosed Canceled = false /\
  fst (resume (InSourceRead 0) SourceReturned cancelledRead) = Some (inl (inr Canceled)).
Proof.
  destruct (source_error_is_passed_through 0%nat cancelledRead Canceled eq_refl
              (or_introl eq_refl)) as (s' & Hres & _).
  split; [reflexivity |]. split; [reflexivity |]. rewrite Hres. reflexivity.
Defined.

(** A batch is in flight and a second read waits on the source; the batch
    fails, the read is cancelled and returns the cancellation error. *)
Lemma interrupt_witness :
  reader (after (mkWorld [one; three] []) readWhileInFlight) = Some (InSourceRead 1%nat) /\
  exists sys1 o1 sys2,
    step (CallAckFn 0 None (Some boom)) (after (mkWorld [one; three] []) readWhileInFlight)
      = Some (sys1, o1) /\
    step (WakeRead SourceReturned) sys1 = Some (sys2, ReadReturned (inr Canceled)) /\
    List.length (resendMessages (pres (st sys2))) = 1%nat.
Proof.
  assert (Hrun : Run source (mkWorld [one; three] [])
                     (traceOf (mkWorld [one; three] []) readWhileInFlight)
                     (after (mkWorld [one; three] []) readWhileInFlight))
    by (apply after_Run; vm_compute; discriminate).
  assert (Hrd : reader (after (mkWorld [one; three] []) readWhileInFlight)
                = Some (InSourceRead 1%nat)) by reflexivity.
  split; [exact Hrd |].
  destruct (step (CallAckFn 0 None (Some boom))
                 (after (mkWorld [one; three] []) readWhileInFlight))
    as [[sys1 o1] |] eqn:Hs; [| vm_compute in Hs; discriminate].
  destruct (failure_interrupts_read_on_source _ _ _ _ _ Hrun Hrd 0%nat None boom sys1 o1 Hs)
    as (_ & _ & Hc & Hnext).
  assert (Hsys1 : sys1 = fst (match step (CallAckFn 0 None (Some boom))
                                         (after (mkWorld [one; three] []) readWhileInFlight)
                              with Some x => x | None => (sys1, o1) end))
    by (rewrite Hs; reflexivity).
  assert (Hsrc : snd (Async_ReadBatch (r (pres (st sys1)))
                        (lookupErr 1 (done (st sys1))) (world (st sys1))) = inr Canceled)
    by (rewrite Hsys1; reflexivity).
  destruct (Hnext Canceled Hsrc eq_refl) as (sys2 & Hstep2 & _ & Hlen & _).
  exists sys1, o1, sys2. split; [reflexivity |]. split; [exact Hstep2 |].
  rewrite Hlen. reflexivity.
Defined.

(** A batch is in flight and no read is in progress; the batch fails and
    no context is ended. *)
Lemma stale_handle_witness :
  reader (after (mkWorld [one] []) (firstn 2 readWhileInFlight)) = None /\
  exists sys1 o1,
    step (CallAckFn 0 None (Some boom))
         (after (mkWorld [one] []) (firstn 2 readWhileInFlight)) = Some (sys1, o1) /\
    done (st sys1) = [(0%nat, Canceled)].
Proof.
  assert (Hrun : Run source (mkWorld [one] [])
                     (traceOf (mkWorld [one] []) (firstn 2 readWhileInFlight))
                     (after (mkWorld [one] []) (firstn 2 readWhileInFlight)))
    by (apply after_Run; vm_compute; discriminate).
  split; [reflexivity |].
  destruct (step (CallAckFn 0 None (Some boom))
                 (after (mkWorld [one] []) (firstn 2 readWhileInFlight)))
    as [[sys1 o1] |] eqn:Hs; [| vm_compute in Hs; discriminate].
  destruct (failure_outside_fresh_read_interrupts_nothing _ _ _ _ Hrun
              (or_introl eq_refl) 0%nat None boom sys1 o1 Hs) as (Hd & _).
  exists sys1, o1. split; [reflexivity |]. rewrite Hd. reflexivity.
Defined.

(** With the flag set, a read, a tick and another [Connect] leave it set. *)
Lemma sticky_flag_witness :
  0 < inputClosed (pres (st (mkSys (withPreserver [] 1 1) None []))) /\
  notOnSource (mkSys (withPreserver [] 1 1) None []) /\
  exists sys' tr,
    replay [CallReadBatch None; WakeRead TimerFired; CallConnect None]
           (mkSys (withPreserver [] 1 1) None []) = Some (sys', tr) /\
    0 < inputClosed (pres (st sys')).
Proof.
  assert (Hf : 0 < inputClosed (pres (st (mkSys (withPreserver [] 1 1) None []))))
    by reflexivity.
  assert (Hn : notOnSource (mkSys (withPreserver [] 1 1) None []))
    by (intros n H; discriminate H).
  split; [exact Hf |]. split; [exact Hn |].
  destruct (replay [CallReadBatch None; WakeRead TimerFired; CallConnect None]
                   (mkSys (withPreserver [] 1 1) None []))
    as [[sys' tr] |] eqn:Hr; [| vm_compute in Hr; discriminate].
  destruct (closed_flag_is_sticky _ _ _ _ Hr Hf Hn) as (Hf' & _).
  exists sys', tr. split; [reflexivity | exact Hf'].
Defined.

(** The one-part batch fails three times and then succeeds: the source's
    callback has been called once, with nil. *)
Lemma callback_once_witness :
  resendMessages (pres (withPreserver [entryOne] 1 0)) = [entryOne] /\
  exists s',
    ackRound None None (snd (failingRounds 3 None boom (withPreserver [entryOne] 1 0))) =
      (None, s') /\
    acked (world s') = [(1%nat, None)] /\
    pendingMessages (pres s') = 0.
Proof.
  destruct (original_callback_called_once_at_success None None boom 3
              (withPreserver [entryOne] 1 0) entryOne eq_refl)
    as (_ & _ & s' & Hr & Hw & _ & Hp).
  split; [reflexivity |].
  exists s'. split; [exact Hr |]. split; [rewrite Hw | rewrite Hp]; reflexivity.
Defined.

(** The three-part batch whose second part failed: what is put back is
    part of the batch. *)
Lemma retry_parts_witness :
  Forall (fun p => GetIndex 0%nat p < Len (msg entryThree))
         (erroredParts (combine (ShallowCopy (fst (fst (wrapAckFn entryThree idle))))
                                [None; Some boom; None])) /\
  In (part 11) (resendBatch 0%nat entryThree secondFailed) /\
  In (part 11) (msg entryThree).
Proof.
  assert (Hall : Forall (fun p => GetIndex 0%nat p < Len (msg entryThree))
                   (erroredParts (combine (ShallowCopy (fst (fst (wrapAckFn entryThree idle))))
                                          [None; Some boom; None])))
    by (constructor; [reflexivity | constructor]).
  assert (Hin : In (part 11) (resendBatch 0%nat entryThree secondFailed))
    by (left; reflexivity).
  split; [exact Hall |]. split; [exact Hin |].
  apply (retry_batch_holds_original_parts 0%nat entryThree secondFailed); [| exact Hin].
  intros n walk Heq. inversion Heq; subst. exact Hall.
Defined.

(** The drain after the source closed with one batch in flight: the batch
    succeeds and the next tick returns closed. *)
Lemma drain_ends_witness :
  reader (after (mkWorld [one] []) closeWhileInFlight) = Some (InDrain 1%nat) /\
  pendingMessages (pres (st (after (mkWorld [one] []) closeWhileInFlight))) =
    Z.of_nat (List.length (handed (after (mkWorld [one] []) closeWhileInFlight))) /\
  exists sys1 tr sys2,
    replay [CallAckFn 0 None None] (after (mkWorld [one] []) closeWhileInFlight) =
      Some (sys1, tr) /\
    step (WakeRead TimerFired) sys1 = Some (sys2, ReadReturned (inr ErrTypeClosed)).
Proof.
  assert (Hfit : Z.of_nat (List.length (handed (after (mkWorld [one] []) closeWhileInFlight)))
                 <= max_int64) by (vm_compute; discriminate).
  destruct (drain_ends_when_all_callbacks_succeed None 1%nat
              (after (mkWorld [one] []) closeWhileInFlight) eq_refl eq_refl Hfit)
    as (sys1 & tr & sys2 & Hrep & _ & _ & Hstep & _).
  split; [reflexivity |]. split; [reflexivity |].
  exists sys1, tr, sys2. split; [exact Hrep | exact Hstep].
Defined.

(** A draining read that nothing can release: a tick leaves it draining. *)
Lemma stuck_drain_witness :
  0 < pendingMessages (pres (st (mkSys (withPreserver [] 1 1) (Some (InDrain 0%nat)) []))) /\
  exists sys' o,
    step (WakeRead TimerFired) (mkSys (withPreserver [] 1 1) (Some (InDrain 0%nat)) []) =
      Some (sys', o) /\
    reader sys' = Some (InDrain 0%nat).
Proof.
  assert (Hp : 0 < pendingMessages
                     (pres (st (mkSys (withPreserver [] 1 1) (Some (InDrain 0%nat)) []))))
    by reflexivity.
  split; [exact Hp |].
  destruct (step (WakeRead TimerFired)
                 (mkSys (withPreserver [] 1 1) (Some (InDrain 0%nat)) []))
    as [[sys' o] |] eqn:Hs; [| vm_compute in Hs; discriminate].
  destruct (drain_with_nothing_outstanding_only_times_out 0%nat
              (mkSys (withPreserver [] 1 1) (Some (InDrain 0%nat)) [])
              eq_refl eq_refl Hp _ _ _ Hs) as [(Hrd & _) | (Hev & _)];
    [| discriminate Hev].
  exists sys', o. split; [reflexivity | exact Hrd].
Defined.

(** A read that serves a queued entry at once has ended its context when
    it returns. *)
Lemma context_ended_witness :
  exists sys' out,
    step (CallReadBatch None) (mkSys (withPreserver [entryOne] 1 0) None []) =
      Some (sys', ReadReturned out) /\
    ended 0 (st sys').
Proof.
  destruct (step (CallReadBatch None) (mkSys (withPreserver [entryOne] 1 0) None []))
    as [[sys' [| e | e | out | e]] |] eqn:Hs; try (vm_compute in Hs; discriminate).
  destruct (returning_read_ends_its_context _ _ _ _ Hs) as (_ & He).
  exists sys', out. split; [reflexivity | exact He].
Defined.

(** Two batches in flight and a source that reports closed on [Connect]:
    the flag goes from 0 to 1. *)
Lemma flag_set_witness :
  exists sys' o,
    step (CallConnect None) (mkSys (withPreserver [] 2 0) None []) = Some (sys', o) /\
    inputClosed (pres (st sys')) <> 0 /\
    o = ConnectReturned None.
Proof.
  destruct (step (CallConnect None) (mkSys (withPreserver [] 2 0) None []))
    as [[sys' o] |] eqn:Hs; [| vm_compute in Hs; discriminate].
  assert (Hsys : sys' = fst (match step (CallConnect None)
                                        (mkSys (withPreserver [] 2 0) None [])
                             with Some x => x | None => (sys', o) end))
    by (rewrite Hs; reflexivity).
  assert (Hchg : inputClosed (pres (st sys')) <>
                 inputClosed (pres (st (mkSys (withPreserver [] 2 0) None []))))
    by (rewrite Hsys; discriminate).
  destruct (closed_flag_is_set_by_Connect_only _ _ _ _ Hs Hchg) as (ctx & _ & Ho & _).
  exists sys', o. split; [reflexivity |]. split; [exact Hchg | exact Ho].
Defined.

End FurtherInstances.
